(** * ofxCX modular synthesizer: a shallow embedding of [CX::Synth]

    The repository carries two headers for the modular synth:
    [src/CX_ModularSynth.h], whose classes are defined inline, and the later
    [src/CX_Synth.h], which only keeps the bodies of [GenericOutput] and
    [FunctionModule] inline.  Each header is embedded in a module of its own
    ([ModularSynth] and [Synth]); the theorems follow the definitions.

    Modules live in a store (a finite map from addresses to objects) because
    the C++ code wires them together with raw pointers and mutates them in
    place.  A method is a state transformer over that store which may fault
    (undefined behaviour or a thrown exception in the C++ code). *)

From Stdlib Require Import ZArith QArith List Lia.
From stdpp Require Import base option list gmap.

Local Open Scope Z_scope.

(** ** Arithmetic on samples

    [double] is kept abstract: the embedding is parametric in the carrier and
    in the operations the code applies to it.  [float] (the sample rate) is
    read into the same carrier, the widening [float -> double] being exact.
    Nothing is assumed about the operations; a theorem that needs a law of
    arithmetic states it as a hypothesis. *)

Class Arith (D : Type) := {
  d_of_Z : Z -> D;        (* conversion of an [int] or [unsigned] to [double] *)
  dadd : D -> D -> D;
  dsub : D -> D -> D;
  dmul : D -> D -> D;
  ddiv : D -> D -> D;
  PI : D;                 (* the [PI] macro of openFrameworks *)
  sinc : D -> D;          (* [CX::Synth::sinc], declared in the headers only *)
  pow : D -> D -> D       (* [pow] of <cmath> *)
}.

Declare Scope dbl_scope.
Delimit Scope dbl_scope with dbl.
Infix "+" := dadd : dbl_scope.
Infix "-" := dsub : dbl_scope.
Infix "*" := dmul : dbl_scope.
Infix "/" := ddiv : dbl_scope.

(** Counting up in steps of one is exact from [0] to [n + 1]: adding [1] to
    the number [k] gives the number [k + 1], and taking [1] off again gives
    [k] back.  A field has it for every [n]; IEEE doubles have it as long as
    [n + 1] stays below [2 ^ 53]. *)
Definition counts_exactly {D : Type} `{Arith D} (n : Z) : Prop :=
  forall k, 0 <= k <= n ->
    (d_of_Z k + d_of_Z 1)%dbl = d_of_Z (k + 1) /\
    (d_of_Z (k + 1) - d_of_Z 1)%dbl = d_of_Z k.

(** ** Machine integers *)

(** [unsigned int], 32 bits. *)
Definition to_uint (z : Z) : Z := z mod 2 ^ 32.

(** [int], 32 bits two's complement: the value an [unsigned] or a wider
    integer takes when it is stored in an [int]. *)
Definition to_int (z : Z) : Z := (z + 2 ^ 31) mod 2 ^ 32 - 2 ^ 31.

Definition is_uint (z : Z) : Prop := 0 <= z < 2 ^ 32.
Definition INT_MAX : Z := 2 ^ 31 - 1.

(** A count rounded up to the next odd number. *)
Definition odd_count (coefficientCount : Z) : Z :=
  if coefficientCount mod 2 =? 0 then coefficientCount + 1 else coefficientCount.

(** [for (int i = lo; i <= hi; i++)]: the values [i] takes. *)
Definition int_range (lo hi : Z) : list Z :=
  map (fun k => lo + Z.of_nat k) (seq 0 (Z.to_nat (hi - lo + 1))).

(** ** Outcomes and the store monad *)

Inductive fault :=
  | NullPointer      (* an address that holds no object of the expected class *)
  | EmptyContainer   (* [front()] or [pop_front()] of an empty container *)
  | OutOfRange       (* [operator[]] past the end of a vector or deque *)
  | LengthError      (* [assign(n, x)] with [n] above [max_size()] *)
  | BadFunctionCall. (* a call of a [std::function] that holds no target *)

Inductive outcome (A : Type) :=
  | Ok (a : A)
  | Fault (e : fault)
  | OutOfFuel.
Arguments Ok {A} a.
Arguments Fault {A} e.
Arguments OutOfFuel {A}.

Definition M (S A : Type) : Type := S -> outcome (A * S).

Definition ret {S A} (a : A) : M S A := fun s => Ok (a, s).
Definition raise {S A} (e : fault) : M S A := fun _ => Fault e.
Definition bind {S A B} (c : M S A) (k : A -> M S B) : M S B :=
  fun s => match c s with
           | Ok (a, s') => k a s'
           | Fault e => Fault e
           | OutOfFuel => OutOfFuel
           end.

Declare Scope synth_scope.
Delimit Scope synth_scope with synth.
Notation "x <- c ;; k" := (bind c (fun x => k))
  (at level 100, c at next level, right associativity) : synth_scope.

(** Run the body once for every element, in order. *)
Fixpoint for_each {S A} (l : list A) (body : A -> M S unit) : M S unit :=
  match l with
  | [] => ret tt
  | a :: l' => bind (body a) (fun _ => for_each l' body)
  end.

Definition ptr := nat.

(** ** [src/CX_ModularSynth.h] *)

Module ModularSynth.
Section Defs.
Context {D : Type} `{Arith D}.
Local Open Scope synth_scope.

Record ModuleControlData_t := {
  initialized : bool;
  sampleRate : D
}.

(** The default constructor. *)
Definition ModuleControlData_new : ModuleControlData_t :=
  {| initialized := false; sampleRate := d_of_Z 666 |}.

(** [ModuleParameter]; the field [_data] of the class is [p_data] here,
    [_data] being also the name of the control block of [ModuleBase]. *)
Record ModuleParameter := {
  p_owner : option ptr;
  p_input : option ptr;
  p_data : D
}.

(** [ModuleParameter(double d)]. *)
Definition ModuleParameter_new (d : D) : ModuleParameter :=
  {| p_owner := None; p_input := None; p_data := d |}.

Inductive FilterType := LOW_PASS | HIGH_PASS | USER_DEFINED.

Record FIRFilter := {
  _filterType : FilterType;
  _coefCount : Z;
  _coefficients : list D;
  _inputSamples : list D
}.

Record TrivialGenerator := {
  value : ModuleParameter;
  step : ModuleParameter
}.

Record RCFilter := {
  breakpoint : ModuleParameter;
  _v0 : D
}.

(** The classes of the header whose [getNextSample] is defined in it. *)
Inductive Derived :=
  | IsModuleBase
  | IsTrivialGenerator (g : TrivialGenerator)
  | IsGenericOutput
  | IsFIRFilter (f : FIRFilter)
  | IsRCFilter (r : RCFilter).

(** The address of a [ModuleParameter]: an object of its own, or a data
    member of a module. *)
Inductive pfield := F_value | F_step | F_breakpoint.
Inductive pref :=
  | Standalone (a : ptr)
  | Member (m : ptr) (f : pfield).

(** [ModuleBase] with the part added by the derived class. *)
Record Module := {
  _inputs : list ptr;
  _outputs : list ptr;
  _parameters : list pref;
  _data : ModuleControlData_t;
  derived : Derived
}.

Record heap := {
  modules : gmap ptr Module;
  parameters : gmap ptr ModuleParameter
}.

(** *** Field updates *)

Definition set_derived (d : Derived) (m : Module) : Module :=
  {| _inputs := _inputs m; _outputs := _outputs m; _parameters := _parameters m;
     _data := _data m; derived := d |}.

Definition set_data (c : ModuleControlData_t) (m : Module) : Module :=
  {| _inputs := _inputs m; _outputs := _outputs m; _parameters := _parameters m;
     _data := c; derived := derived m |}.

Definition set_initialized (b : bool) (c : ModuleControlData_t) : ModuleControlData_t :=
  {| initialized := b; sampleRate := sampleRate c |}.

Definition set_p_data (d : D) (p : ModuleParameter) : ModuleParameter :=
  {| p_owner := p_owner p; p_input := p_input p; p_data := d |}.

Definition set_p_input (i : option ptr) (p : ModuleParameter) : ModuleParameter :=
  {| p_owner := p_owner p; p_input := i; p_data := p_data p |}.

Definition set_inputSamples (l : list D) (f : FIRFilter) : FIRFilter :=
  {| _filterType := _filterType f; _coefCount := _coefCount f;
     _coefficients := _coefficients f; _inputSamples := l |}.

Definition set_coefficients (l : list D) (f : FIRFilter) : FIRFilter :=
  {| _filterType := _filterType f; _coefCount := _coefCount f;
     _coefficients := l; _inputSamples := _inputSamples f |}.

Definition set_coefCount (c : Z) (f : FIRFilter) : FIRFilter :=
  {| _filterType := _filterType f; _coefCount := c;
     _coefficients := _coefficients f; _inputSamples := _inputSamples f |}.

Definition set_filterType (t : FilterType) (f : FIRFilter) : FIRFilter :=
  {| _filterType := t; _coefCount := _coefCount f;
     _coefficients := _coefficients f; _inputSamples := _inputSamples f |}.

Definition set_v0 (v : D) (r : RCFilter) : RCFilter :=
  {| breakpoint := breakpoint r; _v0 := v |}.

Definition set_modules (ms : gmap ptr Module) (h : heap) : heap :=
  {| modules := ms; parameters := parameters h |}.

Definition set_parameters (ps : gmap ptr ModuleParameter) (h : heap) : heap :=
  {| modules := modules h; parameters := ps |}.

(** *** Access to the store *)

Definition readModule (a : ptr) : M heap Module :=
  fun h => match modules h !! a with
           | Some m => Ok (m, h)
           | None => Fault NullPointer
           end.

Definition writeModule (a : ptr) (m : Module) : M heap unit :=
  fun h => Ok (tt, set_modules (<[a := m]> (modules h)) h).

Definition member_get (f : pfield) (m : Module) : option ModuleParameter :=
  match f, derived m with
  | F_value, IsTrivialGenerator g => Some (value g)
  | F_step, IsTrivialGenerator g => Some (step g)
  | F_breakpoint, IsRCFilter r => Some (breakpoint r)
  | _, _ => None
  end.

Definition member_set (f : pfield) (p : ModuleParameter) (m : Module) : option Module :=
  match f, derived m with
  | F_value, IsTrivialGenerator g =>
      Some (set_derived (IsTrivialGenerator {| value := p; step := step g |}) m)
  | F_step, IsTrivialGenerator g =>
      Some (set_derived (IsTrivialGenerator {| value := value g; step := p |}) m)
  | F_breakpoint, IsRCFilter r =>
      Some (set_derived (IsRCFilter {| breakpoint := p; _v0 := _v0 r |}) m)
  | _, _ => None
  end.

Definition lookupP (r : pref) (h : heap) : option ModuleParameter :=
  match r with
  | Standalone a => parameters h !! a
  | Member a f => match modules h !! a with
                  | Some m => member_get f m
                  | None => None
                  end
  end.

Definition storeP (r : pref) (p : ModuleParameter) (h : heap) : option heap :=
  match r with
  | Standalone a =>
      match parameters h !! a with
      | Some _ => Some (set_parameters (<[a := p]> (parameters h)) h)
      | None => None
      end
  | Member a f =>
      match modules h !! a with
      | Some m => match member_set f p m with
                  | Some m' => Some (set_modules (<[a := m']> (modules h)) h)
                  | None => None
                  end
      | None => None
      end
  end.

Definition readP (r : pref) : M heap ModuleParameter :=
  fun h => match lookupP r h with
           | Some p => Ok (p, h)
           | None => Fault NullPointer
           end.

Definition writeP (r : pref) (p : ModuleParameter) : M heap unit :=
  fun h => match storeP r p h with
           | Some h' => Ok (tt, h')
           | None => Fault NullPointer
           end.

Definition readFIR (self : ptr) : M heap FIRFilter :=
  m <- readModule self ;;
  match derived m with
  | IsFIRFilter f => ret f
  | _ => raise NullPointer
  end.

Definition writeFIR (self : ptr) (f : FIRFilter) : M heap unit :=
  m <- readModule self ;;
  writeModule self (set_derived (IsFIRFilter f) m).

Definition readRC (self : ptr) : M heap RCFilter :=
  m <- readModule self ;;
  match derived m with
  | IsRCFilter r => ret r
  | _ => raise NullPointer
  end.

Definition writeRC (self : ptr) (r : RCFilter) : M heap unit :=
  m <- readModule self ;;
  writeModule self (set_derived (IsRCFilter r) m).

(** *** [ModuleParameter] *)

(** [updateValue()].  [pull] stands for the virtual call
    [_input->getNextSample()]; the result is assigned to the [_data] of the
    parameter as the store is after the call. *)
Definition ModuleParameter_updateValue (pull : ptr -> M heap D) (r : pref) : M heap unit :=
  p <- readP r ;;
  match p_input p with
  | Some src =>
      x <- pull src ;;
      p' <- readP r ;;
      writeP r (set_p_data x p')
  | None => ret tt
  end.

(** [getValue()] and [operator double()]. *)
Definition ModuleParameter_getValue (r : pref) : M heap D :=
  p <- readP r ;; ret (p_data p).

(** [operator=(double d)]. *)
Definition ModuleParameter_assign (d : D) (r : pref) : M heap unit :=
  p <- readP r ;;
  _ <- writeP r (set_p_data d p) ;;
  p <- readP r ;;
  writeP r (set_p_input None p).

(** [operator>>(ModuleBase& l, ModuleParameter& r)]. *)
Definition connect_parameter (l : ptr) (r : pref) : M heap unit :=
  p <- readP r ;;
  writeP r (set_p_input (Some l) p).

(** *** [ModuleBase] *)

Definition ModuleBase_getNextSample : M heap D := ret (d_of_Z 0).

Definition ModuleBase_getData (self : ptr) : M heap ModuleControlData_t :=
  m <- readModule self ;; ret (_data m).

Section SetData.
(** [ModuleBase::_dataSet(ModuleBase* caller)] is declared in the header and
    defined outside it: it is a parameter of [setData]. *)
Variable _dataSet : option ptr -> ptr -> M heap unit.

Definition ModuleBase_setData (d : ModuleControlData_t) (self : ptr) : M heap unit :=
  m <- readModule self ;;
  _ <- writeModule self (set_data d m) ;;
  m <- readModule self ;;
  _ <- writeModule self (set_data (set_initialized true (_data m)) m) ;;
  _dataSet None self.
End SetData.

(** *** [TrivialGenerator] *)

Definition TrivialGenerator_getNextSample (pull : ptr -> M heap D) (self : ptr) : M heap D :=
  _ <- ModuleParameter_updateValue pull (Member self F_value) ;;
  v <- ModuleParameter_getValue (Member self F_value) ;;
  s <- ModuleParameter_getValue (Member self F_step) ;;
  p <- readP (Member self F_value) ;;
  _ <- writeP (Member self F_value) (set_p_data (v + s)%dbl p) ;;
  v' <- ModuleParameter_getValue (Member self F_value) ;;
  s' <- ModuleParameter_getValue (Member self F_step) ;;
  ret (v' - s')%dbl.

(** *** [GenericOutput] *)

Definition GenericOutput_getNextSample (pull : ptr -> M heap D) (self : ptr) : M heap D :=
  m <- readModule self ;;
  match _inputs m with
  | [] => ret (d_of_Z 0)
  | inp :: _ => pull inp
  end.

(** *** [FIRFilter] *)

(** The constructor. *)
Definition FIRFilter_new : FIRFilter :=
  {| _filterType := LOW_PASS; _coefCount := -1; _coefficients := []; _inputSamples := [] |}.

(** [_inputSamples.assign(n, 0)] with [n] an [int]: the count is converted to
    [size_type], so that a negative one asks for more than [max_size()]
    elements and the call throws. *)
Definition deque_assign (n : Z) (x : D) : M heap (list D) :=
  if n <? 0 then raise LengthError else ret (repeat x (Z.to_nat n)).

(** [setup(FilterType filterType, unsigned int coefficientCount)]. *)
Definition FIRFilter_setup (filterType : FilterType) (coefficientCount : Z) (self : ptr)
  : M heap unit :=
  let coefficientCount :=
    if coefficientCount mod 2 =? 0 then to_uint (coefficientCount + 1) else coefficientCount in
  f <- readFIR self ;;
  _ <- writeFIR self (set_coefCount (to_int coefficientCount) f) ;;
  f <- readFIR self ;;
  l <- deque_assign (_coefCount f) (d_of_Z 0) ;;
  writeFIR self (set_inputSamples l f).

(** [setup(std::vector<double> coefficients)]. *)
Definition FIRFilter_setup_coefficients (coefficients : list D) (self : ptr) : M heap unit :=
  f <- readFIR self ;;
  _ <- writeFIR self (set_filterType USER_DEFINED f) ;;
  f <- readFIR self ;;
  _ <- writeFIR self (set_coefficients coefficients f) ;;
  f <- readFIR self ;;
  _ <- writeFIR self (set_coefCount (to_int (Z.of_nat (length coefficients))) f) ;;
  f <- readFIR self ;;
  l <- deque_assign (_coefCount f) (d_of_Z 0) ;;
  writeFIR self (set_inputSamples l f).

Definition FIRFilter_calcH (n : Z) (omega : D) : D :=
  if n =? 0 then (omega / PI)%dbl
  else (omega / PI * sinc (d_of_Z n * omega))%dbl.

(** [_coefficients[i] *= pow(-1, i)] with [i] an [int]: the index is converted
    to [size_type], so that a negative one lies past the end. *)
Definition FIRFilter_modulate (self : ptr) (i : Z) : M heap unit :=
  f <- readFIR self ;;
  if i <? 0 then raise OutOfRange
  else match _coefficients f !! Z.to_nat i with
       | Some c =>
           writeFIR self
             (set_coefficients
                (<[Z.to_nat i := (c * pow (d_of_Z (-1)) (d_of_Z i))%dbl]> (_coefficients f)) f)
       | None => raise OutOfRange
       end.

Definition FIRFilter_push_coefficient (self : ptr) (omega : D) (i : Z) : M heap unit :=
  f <- readFIR self ;;
  writeFIR self (set_coefficients (_coefficients f ++ [FIRFilter_calcH i omega]) f).

(** [setCutoff(double cutoff)].  [-_coefCount / 2] negates first and divides
    towards zero, as [int] arithmetic does; the negation cannot overflow, the
    count of a filter that is not [USER_DEFINED] being [-1] or odd. *)
Definition FIRFilter_setCutoff (cutoff : D) (self : ptr) : M heap unit :=
  f <- readFIR self ;;
  match _filterType f with
  | USER_DEFINED => ret tt
  | _ =>
      m <- readModule self ;;
      let omega := (PI * cutoff / (sampleRate (_data m) / d_of_Z 2))%dbl in
      _ <- writeFIR self (set_coefficients [] f) ;;
      let lo := Z.quot (- _coefCount f) 2 in
      let hi := Z.quot (_coefCount f) 2 in
      _ <- for_each (int_range lo hi) (FIRFilter_push_coefficient self omega) ;;
      f <- readFIR self ;;
      match _filterType f with
      | HIGH_PASS => for_each (int_range lo hi) (FIRFilter_modulate self)
      | _ => ret tt
      end
  end.

(** The loop [for (int i = 0; i < _coefCount; i++) y_n += _inputSamples[i] *
    _coefficients[i]], started at index [i] with [n] rounds to go. *)
Fixpoint FIRFilter_convolve (samples coefs : list D) (i n : nat) (y_n : D) : outcome D :=
  match n with
  | O => Ok y_n
  | S n' =>
      match samples !! i, coefs !! i with
      | Some s, Some c => FIRFilter_convolve samples coefs (S i) n' (y_n + s * c)%dbl
      | _, _ => Fault OutOfRange
      end
  end.

Definition FIRFilter_getNextSample (pull : ptr -> M heap D) (self : ptr) : M heap D :=
  f <- readFIR self ;;
  _ <- match _inputSamples f with
       | [] => raise EmptyContainer
       | _ :: rest => writeFIR self (set_inputSamples rest f)
       end ;;
  m <- readModule self ;;
  match _inputs m with
  | [] => raise EmptyContainer
  | inp :: _ =>
      x <- pull inp ;;
      f <- readFIR self ;;
      _ <- writeFIR self (set_inputSamples (_inputSamples f ++ [x]) f) ;;
      f <- readFIR self ;;
      fun h =>
        match FIRFilter_convolve (_inputSamples f) (_coefficients f) 0
                (Z.to_nat (_coefCount f)) (d_of_Z 0) with
        | Ok y_n => Ok (y_n, h)
        | Fault e => Fault e
        | OutOfFuel => OutOfFuel
        end
  end.

(** The sum over [i] of [samples[i] * coefs[i]], the products being added to
    [0] from the first index to the last. *)
Definition dot_product (samples coefs : list D) : D :=
  fold_left (fun y sc => (y + fst sc * snd sc)%dbl) (combine samples coefs) (d_of_Z 0).

(** The low-pass kernel of [n] taps for [omega]: [_calcH] at the centred
    offsets [-n/2 .. n/2]. *)
Definition low_pass_kernel (n : Z) (omega : D) : list D :=
  map (fun i => FIRFilter_calcH i omega) (int_range (Z.quot (- n) 2) (Z.quot n 2)).

(** *** [RCFilter] *)

(** The constructor. *)
Definition RCFilter_new : RCFilter :=
  {| breakpoint := ModuleParameter_new (d_of_Z 2000); _v0 := d_of_Z 0 |}.

Definition RCFilter_update (pull : ptr -> M heap D) (self : ptr) (v1 : D) : M heap D :=
  _ <- ModuleParameter_updateValue pull (Member self F_breakpoint) ;;
  r <- readRC self ;;
  b <- ModuleParameter_getValue (Member self F_breakpoint) ;;
  m <- readModule self ;;
  _ <- writeRC self
         (set_v0 (_v0 r + (v1 - _v0 r) * d_of_Z 2 * PI * b / sampleRate (_data m))%dbl r) ;;
  r <- readRC self ;;
  ret (_v0 r).

Definition RCFilter_getNextSample (pull : ptr -> M heap D) (self : ptr) : M heap D :=
  m <- readModule self ;;
  match _inputs m with
  | inp :: _ =>
      v1 <- pull inp ;;
      RCFilter_update pull self v1
  | [] => ret (d_of_Z 0)
  end.

(** *** Virtual dispatch *)

(** [self->getNextSample()].  The pointers may form a cycle, on which the C++
    code recurses without end: the depth of the calls is bounded by [fuel]. *)
Fixpoint getNextSample (fuel : nat) (self : ptr) : M heap D :=
  match fuel with
  | O => fun _ => OutOfFuel
  | S fuel' =>
      m <- readModule self ;;
      match derived m with
      | IsModuleBase => ModuleBase_getNextSample
      | IsTrivialGenerator _ => TrivialGenerator_getNextSample (getNextSample fuel') self
      | IsGenericOutput => GenericOutput_getNextSample (getNextSample fuel') self
      | IsFIRFilter _ => FIRFilter_getNextSample (getNextSample fuel') self
      | IsRCFilter _ => RCFilter_getNextSample (getNextSample fuel') self
      end
  end.

(** [r.updateValue()] on the store. *)
Definition updateValue (fuel : nat) (r : pref) : M heap unit :=
  ModuleParameter_updateValue (getNextSample fuel) r.

(** A module with the patches of its parameters forgotten: what is left is
    its connection lists, its control block and the numbers it holds. *)
Definition without_patches (m : Module) : Module :=
  set_derived
    match derived m with
    | IsTrivialGenerator g =>
        IsTrivialGenerator {| value := set_p_input None (value g);
                              step := set_p_input None (step g) |}
    | IsRCFilter r =>
        IsRCFilter {| breakpoint := set_p_input None (breakpoint r); _v0 := _v0 r |}
    | d => d
    end m.

(** [n] calls of [r.updateValue()] in a row. *)
Fixpoint updateValue_times (fuel : nat) (r : pref) (n : nat) : M heap unit :=
  match n with
  | O => ret tt
  | S n' => _ <- updateValue fuel r ;; updateValue_times fuel r n'
  end.

(** *** Runs of calls, and the functions they are compared with *)

(** [n] calls of [self->getNextSample()] in a row: the samples, in the order
    they were produced. *)
Fixpoint getNextSample_times (fuel : nat) (self : ptr) (n : nat) : M heap (list D) :=
  match n with
  | O => ret []
  | S n' =>
      x <- getNextSample fuel self ;;
      xs <- getNextSample_times fuel self n' ;;
      ret (x :: xs)
  end.

(** The store with the module at [self] overwritten. *)
Definition with_module (self : ptr) (m : Module) (h : heap) : heap :=
  set_modules (<[self := m]> (modules h)) h.

(** The module at [inp] feeds the samples [xs] to the module at [self] and
    moves the rest of the store from [h] to [h']: whatever the module at
    [self] holds, a call of [inp] returns the next sample and leaves that
    module alone. *)
Inductive feeds (fuel : nat) (self inp : ptr) : heap -> list D -> heap -> Prop :=
  | feeds_nil h : feeds fuel self inp h [] h
  | feeds_cons h x h1 xs h' :
      (forall m', getNextSample fuel inp (with_module self m' h)
                  = Ok (x, with_module self m' h1)) ->
      feeds fuel self inp h1 xs h' ->
      feeds fuel self inp h (x :: xs) h'.

(** The history of a FIR filter after the samples [xs] went through it. *)
Fixpoint FIR_history (hist xs : list D) : list D :=
  match xs with
  | [] => hist
  | x :: xs' => FIR_history (tail hist ++ [x]) xs'
  end.

(** The samples a FIR filter returns for the input samples [xs]. *)
Fixpoint FIR_response (coefs hist xs : list D) : list D :=
  match xs with
  | [] => []
  | x :: xs' =>
      dot_product (tail hist ++ [x]) coefs :: FIR_response coefs (tail hist ++ [x]) xs'
  end.

(** The value a [TrivialGenerator] holds after [k] calls: [step] added [k]
    times to the value it started with. *)
Fixpoint ramp_value (v s : D) (k : nat) : D :=
  match k with
  | O => v
  | S k' => (ramp_value v s k' + s)%dbl
  end.

(** A module with the numbers that [getNextSample] works on forgotten: the
    value of a generator, the history of a FIR filter, the state of an RC
    filter and the value of its breakpoint.  What is left is the connection
    lists, the control block, the patches, the step of a generator and the
    type, count and coefficients of a FIR filter. *)
Definition without_signal (m : Module) : Module :=
  set_derived
    match derived m with
    | IsTrivialGenerator g =>
        IsTrivialGenerator {| value := set_p_data (d_of_Z 0) (value g); step := step g |}
    | IsFIRFilter f => IsFIRFilter (set_inputSamples [] f)
    | IsRCFilter r =>
        IsRCFilter {| breakpoint := set_p_data (d_of_Z 0) (breakpoint r);
                      _v0 := d_of_Z 0 |}
    | d => d
    end m.

(** Two stores with the same wiring: the same free-standing parameters, and
    at every address the same module up to the numbers [getNextSample] works
    on. *)
Definition same_wiring (h h' : heap) : Prop :=
  parameters h' = parameters h /\
  forall a, without_signal <$> modules h' !! a = without_signal <$> modules h !! a.

End Defs.
End ModularSynth.

(** ** [src/CX_Synth.h] *)

Module Synth.
Section Defs.
Context {D : Type} `{Arith D}.
(** The state of a module whose class is declared in the header and defined
    outside it (oscillators, filters, mixers and the like). *)
Context {X : Type}.
Local Open Scope synth_scope.

Record ModuleControlData_t := {
  initialized : bool;
  sampleRate : D;
  oversampling : Z
}.

(** [ModuleControlData_t(void)]. *)
Definition ModuleControlData_new : ModuleControlData_t :=
  {| initialized := false; sampleRate := d_of_Z 666; oversampling := 1 |}.

(** [ModuleControlData_t(float sampleRate_)]. *)
Definition ModuleControlData_of_rate (sampleRate_ : D) : ModuleControlData_t :=
  {| initialized := true; sampleRate := sampleRate_; oversampling := 1 |}.

(** The member [std::function<double(double)> f] of a [FunctionModule] is
    [None] while it holds no target, as it does after construction: the class
    declares no constructor, and only an assignment by the user fills it. *)
Inductive Derived :=
  | IsGenericOutput
  | IsFunctionModule (f : option (D -> D))
  | IsDeclared (x : X).

Record Module := {
  _inputs : list ptr;
  _outputs : list ptr;
  _parameters : list ptr;
  _data : ModuleControlData_t;
  derived : Derived
}.

Definition readModule (a : ptr) : M (gmap ptr Module) Module :=
  fun h => match h !! a with
           | Some m => Ok (m, h)
           | None => Fault NullPointer
           end.

(** The rounds of [for (unsigned int i = 0; i < _data->oversampling; i++)
    sum += _inputs.front()->getNextSample()] from the round with counter [i]
    on.  The bound and the input are read anew in every round, as the code
    does; [budget] only makes the recursion structural ([i] stays below
    [2 ^ 32]). *)
Fixpoint GenericOutput_sum (pull : ptr -> M (gmap ptr Module) D) (self : ptr)
    (budget : nat) (i : Z) (sum : D) : M (gmap ptr Module) D :=
  match budget with
  | O => fun _ => OutOfFuel
  | S budget' =>
      m <- readModule self ;;
      if i <? oversampling (_data m) then
        match _inputs m with
        | [] => raise EmptyContainer
        | inp :: _ =>
            x <- pull inp ;;
            GenericOutput_sum pull self budget' (i + 1) (sum + x)%dbl
        end
      else ret sum
  end.

Definition GenericOutput_getNextSample (pull : ptr -> M (gmap ptr Module) D) (self : ptr)
  : M (gmap ptr Module) D :=
  m <- readModule self ;;
  match _inputs m with
  | [] => ret (d_of_Z 0)
  | _ :: _ =>
      sum <- GenericOutput_sum pull self (Z.to_nat (2 ^ 32)) 0 (d_of_Z 0) ;;
      m <- readModule self ;;
      ret (sum / d_of_Z (oversampling (_data m)))%dbl
  end.

Definition FunctionModule_getNextSample (pull : ptr -> M (gmap ptr Module) D) (self : ptr)
  : M (gmap ptr Module) D :=
  m <- readModule self ;;
  v <- match _inputs m with
       | inp :: _ => pull inp
       | [] => ret (d_of_Z 0)
       end ;;
  m <- readModule self ;;
  match derived m with
  | IsFunctionModule (Some f) => ret (f v)
  | IsFunctionModule None => raise BadFunctionCall
  | _ => raise NullPointer
  end.

(** [getNextSample] of the classes defined outside the header, given the
    virtual call it may make on its own inputs. *)
Variable declared_getNextSample :
  (ptr -> M (gmap ptr Module) D) -> ptr -> M (gmap ptr Module) D.

Fixpoint getNextSample (fuel : nat) (self : ptr) : M (gmap ptr Module) D :=
  match fuel with
  | O => fun _ => OutOfFuel
  | S fuel' =>
      m <- readModule self ;;
      match derived m with
      | IsGenericOutput => GenericOutput_getNextSample (getNextSample fuel') self
      | IsFunctionModule _ => FunctionModule_getNextSample (getNextSample fuel') self
      | IsDeclared _ => declared_getNextSample (getNextSample fuel') self
      end
  end.

(** [n] calls of [inp->getNextSample()] in a row: the samples, in the order
    they were produced, and the store they leave. *)
Fixpoint pull_times (fuel : nat) (inp : ptr) (n : nat) : M (gmap ptr Module) (list D) :=
  match n with
  | O => ret []
  | S n' =>
      x <- getNextSample fuel inp ;;
      xs <- pull_times fuel inp n' ;;
      ret (x :: xs)
  end.

(** The arithmetic mean as the code forms it: the samples are added to [0]
    from the first to the last and the sum is divided by their number. *)
Definition mean (xs : list D) (k : Z) : D :=
  (fold_left dadd xs (d_of_Z 0) / d_of_Z k)%dbl.

End Defs.
End Synth.

(** ** Exact rational arithmetic

    An instance of [Arith] on which the definitions run.  The operations are
    those of [Q], reduced to lowest terms so that equal results are the same
    term; [PI] and [sinc] are rational stand-ins (a convergent of pi and the
    first terms of the series of [sin x / x]), which no theorem relies on. *)

Definition Q_sinc (x : Q) : Q :=
  Qred (1 - x * x / 6 + x * x * x * x / 120)%Q.

Definition Q_pow (b e : Q) : Q := Qred (Qpower b (Qnum e)).

#[export] Instance Q_Arith : Arith Q := {|
  d_of_Z := inject_Z;
  dadd x y := Qred (x + y)%Q;
  dsub x y := Qred (x - y)%Q;
  dmul x y := Qred (x * y)%Q;
  ddiv x y := Qred (x / y)%Q;
  PI := (355 # 113)%Q;
  sinc := Q_sinc;
  pow := Q_pow
|}.

(** ** Stores to run the definitions on *)

Module Examples.
Import ModularSynth.

Definition config : ModuleControlData_t (D := Q) :=
  {| initialized := true; sampleRate := inject_Z 48000 |}.

Definition module_of (d : Derived (D := Q)) (inputs : list ptr) : Module :=
  {| _inputs := inputs; _outputs := []; _parameters := [];
     _data := config; derived := d |}.

(** [TrivialGenerator g; g.value = 0; g.step = 1;] *)
Definition ramp : TrivialGenerator (D := Q) :=
  {| value := ModuleParameter_new (inject_Z 0); step := ModuleParameter_new (inject_Z 1) |}.

(** [TrivialGenerator g; g.value = 1000; g.step = 100;] *)
Definition ramp_from_1000 : TrivialGenerator (D := Q) :=
  {| value := ModuleParameter_new (inject_Z 1000);
     step := ModuleParameter_new (inject_Z 100) |}.

(** A filter of three taps set up with [setup(std::vector<double>)], some
    samples later. *)
Definition three_taps : FIRFilter (D := Q) :=
  {| _filterType := USER_DEFINED; _coefCount := 3;
     _coefficients := [inject_Z 1; inject_Z 2; inject_Z 3];
     _inputSamples := [inject_Z 4; inject_Z 5; inject_Z 6] |}.

(** The filter [FIRFilter f; f.setup(std::vector<double>{1, 2, 3});]. *)
Definition fresh_taps : FIRFilter (D := Q) :=
  {| _filterType := USER_DEFINED; _coefCount := 3;
     _coefficients := [inject_Z 1; inject_Z 2; inject_Z 3];
     _inputSamples := [inject_Z 0; inject_Z 0; inject_Z 0] |}.

(** An RC filter that stands at 1, its breakpoint patched to the module at
    address 5. *)
Definition smoother : RCFilter (D := Q) :=
  {| breakpoint := {| p_owner := Some 3%nat; p_input := Some 5%nat;
                      p_data := inject_Z 2000 |};
     _v0 := inject_Z 1 |}.

(** Address 0: the ramp.  Address 1: a FIR filter fed by the ramp.  Address 2:
    a FIR filter just set up, with no input.  Address 3: an RC filter fed by the ramp, its
    breakpoint patched to the ramp at address 5.  Address 4: a FIR filter as
    the constructor leaves it.  Address 5: a second ramp, from 1000 in steps of
    100.  Address 6: a FIR
    filter of three taps whose type field holds [HIGH_PASS].  Free parameter 0
    is patched to the ramp at address 0, free parameter 1 to nothing. *)
Definition store : heap (D := Q) :=
  {| modules :=
       list_to_map
         [ (0%nat, module_of (IsTrivialGenerator ramp) []);
           (1%nat, module_of (IsFIRFilter three_taps) [0%nat]);
           (2%nat, module_of (IsFIRFilter fresh_taps) []);
           (3%nat, module_of (IsRCFilter smoother) [0%nat]);
           (4%nat, module_of (IsFIRFilter FIRFilter_new) []);
           (5%nat, module_of (IsTrivialGenerator ramp_from_1000) []);
           (6%nat, module_of (IsFIRFilter (set_filterType HIGH_PASS three_taps)) [0%nat]) ];
     parameters :=
       list_to_map
         [ (0%nat, {| p_owner := None; p_input := Some 0%nat; p_data := inject_Z 7 |});
           (1%nat, ModuleParameter_new (inject_Z 7)) ] |}.

(** A [_dataSet] to run [setData] with: it hands the control block of the
    module on to the modules of its input list. *)
Definition propagate (_ : option ptr) (self : ptr) : M (heap (D := Q)) unit :=
  fun h =>
    match modules h !! self with
    | Some m =>
        Ok (tt, set_modules
                  (foldr (fun a ms => alter (set_data (_data m)) a ms)
                         (modules h) (_inputs m)) h)
    | None => Fault NullPointer
    end.

(** The filter [FIRFilter f; f.setup(FIRFilter::LOW_PASS, 3);], with no call
    of [setCutoff]. *)
Definition undesigned : FIRFilter (D := Q) :=
  {| _filterType := LOW_PASS; _coefCount := 3; _coefficients := [];
     _inputSamples := [inject_Z 0; inject_Z 0; inject_Z 0] |}.

(** A generator whose [value] is patched to the module at address 0. *)
Definition follower : TrivialGenerator (D := Q) :=
  {| value := {| p_owner := Some 3%nat; p_input := Some 0%nat; p_data := inject_Z 50 |};
     step := ModuleParameter_new (inject_Z 10) |}.

(** A generator whose [step] is patched to the module at address 0. *)
Definition stepper : TrivialGenerator (D := Q) :=
  {| value := ModuleParameter_new (inject_Z 5);
     step := {| p_owner := Some 4%nat; p_input := Some 0%nat; p_data := inject_Z 2 |} |}.

(** Address 0: the ramp.  Address 1: a FIR filter set up with no cutoff, fed
    by the ramp.  Address 2: a [GenericOutput] wired to itself.  Address 3: a
    generator that follows the ramp.  Address 4: a generator whose step is
    patched to the ramp.  Address 5: an RC filter wired to itself.  Address 6:
    an RC filter with no input, its breakpoint patched to the ramp. *)
Definition bench : heap (D := Q) :=
  {| modules :=
       list_to_map
         [ (0%nat, module_of (IsTrivialGenerator ramp) []);
           (1%nat, module_of (IsFIRFilter undesigned) [0%nat]);
           (2%nat, module_of IsGenericOutput [2%nat]);
           (3%nat, module_of (IsTrivialGenerator follower) []);
           (4%nat, module_of (IsTrivialGenerator stepper) []);
           (5%nat, module_of (IsRCFilter smoother) [5%nat]);
           (6%nat, module_of
                     (IsRCFilter {| breakpoint := {| p_owner := Some 6%nat;
                                                     p_input := Some 0%nat;
                                                     p_data := inject_Z 2000 |};
                                    _v0 := inject_Z 0 |}) []) ];
     parameters := ∅ |}.

(** [TrivialGenerator g; FIRFilter fir; g >> fir;]: address 0 holds the ramp,
    address 1 a filter as constructed, with the ramp as its input. *)
Definition fresh_bench : heap (D := Q) :=
  {| modules :=
       list_to_map
         [ (0%nat, module_of (IsTrivialGenerator ramp) []);
           (1%nat, module_of (IsFIRFilter FIRFilter_new) [0%nat]) ];
     parameters := ∅ |}.

End Examples.

Module SynthExamples.
Import Synth.

(** A module of a class defined outside the header, run as a counter: each
    call returns the count it holds and adds one to it. *)
Definition counter (_ : ptr -> M (gmap ptr (Module (D := Q) (X := Z))) Q) (self : ptr)
  : M (gmap ptr (Module (D := Q) (X := Z))) Q :=
  fun h =>
    match h !! self with
    | Some m =>
        match derived m with
        | IsDeclared x =>
            Ok (inject_Z x,
                <[self := {| _inputs := _inputs m; _outputs := _outputs m;
                             _parameters := _parameters m; _data := _data m;
                             derived := IsDeclared (x + 1) |}]> h)
        | _ => Fault NullPointer
        end
    | None => Fault NullPointer
    end.

(** A [GenericOutput] with [oversampling == 4]. *)
Definition output : Module (D := Q) (X := Z) :=
  {| _inputs := [0%nat]; _outputs := []; _parameters := [];
     _data := {| initialized := true; sampleRate := inject_Z 48000; oversampling := 4 |};
     derived := IsGenericOutput |}.

(** Address 0: a counter that stands at 1.  Address 1: the output, fed by the
    counter. *)
Definition store : gmap ptr (Module (D := Q) (X := Z)) :=
  list_to_map
    [ (0%nat, {| _inputs := []; _outputs := [1%nat]; _parameters := [];
                 _data := _data output; derived := IsDeclared 1 |});
      (1%nat, output) ].

(** Address 0: a counter that stands at 1.  Address 1: a [FunctionModule] that
    doubles its input, fed by the counter.  Address 2: the same with no input.
    Address 3: a [GenericOutput] with [oversampling == 0], fed by the counter.
    Address 4: a [FunctionModule] as constructed, its [f] never assigned, fed
    by the counter.  Address 5: the same with no input. *)
Definition bench : gmap ptr (Module (D := Q) (X := Z)) :=
  list_to_map
    [ (0%nat, {| _inputs := []; _outputs := [1%nat]; _parameters := [];
                 _data := _data output; derived := IsDeclared 1 |});
      (1%nat, {| _inputs := [0%nat]; _outputs := []; _parameters := [];
                 _data := _data output;
                 derived := IsFunctionModule (Some (fun x => dadd x x)) |});
      (2%nat, {| _inputs := []; _outputs := []; _parameters := [];
                 _data := _data output;
                 derived := IsFunctionModule (Some (fun x => dadd x x)) |});
      (3%nat, {| _inputs := [0%nat]; _outputs := []; _parameters := [];
                 _data := {| initialized := true; sampleRate := inject_Z 48000;
                             oversampling := 0 |};
                 derived := IsGenericOutput |});
      (4%nat, {| _inputs := [0%nat]; _outputs := []; _parameters := [];
                 _data := _data output; derived := IsFunctionModule None |});
      (5%nat, {| _inputs := []; _outputs := []; _parameters := [];
                 _data := _data output; derived := IsFunctionModule None |}) ].

End SynthExamples.

(** * Theorems *)

(** ** The store monad *)

Lemma bind_Ok {S A B} (c : M S A) (k : A -> M S B) s a s' :
  c s = Ok (a, s') -> bind c k s = k a s'.
Proof. intros E. unfold bind. now rewrite E. Qed.

(** One step of a sequence whose first command is known to return. *)
Tactic Notation "bind_with" uconstr(H) := rewrite (bind_Ok _ _ _ _ _ H).

Lemma bind_Fault {S A B} (c : M S A) (k : A -> M S B) s e :
  c s = Fault e -> bind c k s = Fault e.
Proof. intros E. unfold bind. now rewrite E. Qed.

Lemma to_int_small z : - 2 ^ 31 <= z <= INT_MAX -> to_int z = z.
Proof.
  unfold to_int, INT_MAX. intros Hz.
  rewrite Z.mod_small by lia. lia.
Qed.

Lemma to_uint_small z : is_uint z -> to_uint z = z.
Proof. unfold to_uint, is_uint. intros Hz. now apply Z.mod_small. Qed.

Section ModularSynthFacts.
Context {D : Type} `{Arith D}.
Import ModularSynth.

Implicit Types (h : @heap D) (m : @Module D) (p q : @ModuleParameter D) (r : pref)
  (self : ptr) (f : @FIRFilter D).

(** ** Reading and writing objects *)

Lemma readModule_Ok self h m :
  modules h !! self = Some m -> readModule self h = Ok (m, h).
Proof. intros E. unfold readModule. now rewrite E. Qed.

Lemma readFIR_Ok self h m f :
  modules h !! self = Some m -> derived m = IsFIRFilter f ->
  readFIR self h = Ok (f, h).
Proof.
  intros E Ed. unfold readFIR.
  bind_with (readModule_Ok _ _ _ E). now rewrite Ed.
Qed.

Lemma writeFIR_Ok self h m f :
  modules h !! self = Some m ->
  writeFIR self f h
  = Ok (tt, set_modules (<[self := set_derived (IsFIRFilter f) m]> (modules h)) h).
Proof.
  intros E. unfold writeFIR.
  now bind_with (readModule_Ok _ _ _ E).
Qed.

Lemma modules_insert_eq self m h :
  modules (set_modules (<[self := m]> (modules h)) h) !! self = Some m.
Proof. simpl. apply lookup_insert_eq. Qed.

Lemma set_modules_twice self m m' h :
  set_modules
    (<[self := m']> (modules (set_modules (<[self := m]> (modules h)) h)))
    (set_modules (<[self := m]> (modules h)) h)
  = set_modules (<[self := m']> (modules h)) h.
Proof. unfold set_modules. simpl. now rewrite insert_insert_eq. Qed.

(** ** C1: a FIR filter with no input *)

(** C1.  The claim asks that [getNextSample()] of a module with no input
    behaves as with a constant zero input and never touches the empty list of
    inputs.  [FIRFilter::getNextSample] does not: whatever the state of the
    filter, a call with an empty [_inputs] faults, on [pop_front()] of an
    empty history or else on [_inputs.front()]. *)
Theorem FIRFilter_getNextSample_no_input fuel self h m f :
  modules h !! self = Some m ->
  derived m = IsFIRFilter f ->
  _inputs m = [] ->
  getNextSample (S fuel) self h = Fault EmptyContainer.
Proof.
  intros E Ed Ei. simpl.
  bind_with (readModule_Ok _ _ _ E). rewrite Ed.
  unfold FIRFilter_getNextSample.
  bind_with (readFIR_Ok _ _ _ _ E Ed).
  destruct (_inputSamples f) as [|x rest]; [reflexivity|].
  erewrite bind_Ok by (apply (writeFIR_Ok _ _ _ _ E)).
  erewrite bind_Ok by (apply readModule_Ok, modules_insert_eq).
  simpl. now rewrite Ei.
Qed.

(** The other two classes of the header that read [_inputs] test it first:
    with no input they return 0 and leave the store as it is. *)
Lemma RCFilter_getNextSample_no_input fuel self h m rc :
  modules h !! self = Some m ->
  derived m = IsRCFilter rc ->
  _inputs m = [] ->
  getNextSample (S fuel) self h = Ok (d_of_Z 0, h).
Proof.
  intros E Ed Ei. simpl.
  bind_with (readModule_Ok _ _ _ E). rewrite Ed.
  unfold RCFilter_getNextSample.
  bind_with (readModule_Ok _ _ _ E). now rewrite Ei.
Qed.

Lemma GenericOutput_getNextSample_no_input fuel self h m :
  modules h !! self = Some m ->
  derived m = IsGenericOutput ->
  _inputs m = [] ->
  getNextSample (S fuel) self h = Ok (d_of_Z 0, h).
Proof.
  intros E Ed Ei. simpl.
  bind_with (readModule_Ok _ _ _ E). rewrite Ed.
  unfold GenericOutput_getNextSample.
  bind_with (readModule_Ok _ _ _ E). now rewrite Ei.
Qed.

End ModularSynthFacts.

Lemma FIRFilter_getNextSample_no_input_witness :
  ModularSynth.getNextSample (D := Q) 5%nat 2%nat Examples.store = Fault EmptyContainer.
Proof.
  apply (FIRFilter_getNextSample_no_input 4%nat 2%nat Examples.store
           (Examples.module_of (ModularSynth.IsFIRFilter Examples.fresh_taps) [])
           Examples.fresh_taps); reflexivity.
Defined.

(** The filter of that store is the one [setup(std::vector<double>{1, 2, 3})]
    makes of a filter as the constructor leaves it. *)
Example FIRFilter_setup_coefficients_fresh :
  ModularSynth.FIRFilter_setup_coefficients (D := Q)
    [inject_Z 1; inject_Z 2; inject_Z 3] 4%nat Examples.store
  = Ok (tt, ModularSynth.set_modules
              (<[4%nat := Examples.module_of
                            (ModularSynth.IsFIRFilter Examples.fresh_taps) []]>
                 (ModularSynth.modules Examples.store)) Examples.store).
Proof. reflexivity. Qed.

(** ** Parameters in the store *)

Section ParameterFacts.
Context {D : Type} `{Arith D}.
Import ModularSynth.

Implicit Types (h : @heap D) (m : @Module D) (p q : @ModuleParameter D) (r : pref)
  (self : ptr) (fld : pfield).

Lemma member_set_Some fld m p q :
  member_get fld m = Some p -> exists m', member_set fld q m = Some m'.
Proof.
  unfold member_get, member_set.
  destruct fld, (derived m); intros E; try discriminate; eauto.
Qed.

Lemma member_get_set_eq fld m m' q :
  member_set fld q m = Some m' -> member_get fld m' = Some q.
Proof.
  unfold member_get, member_set.
  destruct fld, (derived m); intros E; inversion E; reflexivity.
Qed.

Lemma member_get_set_ne fld fld' m m' q :
  member_set fld q m = Some m' -> fld' <> fld ->
  member_get fld' m' = member_get fld' m.
Proof.
  unfold member_get, member_set.
  destruct fld, (derived m) eqn:Ed; intros E Hne; inversion E; subst;
    destruct fld'; simpl; try congruence; rewrite ?Ed; reflexivity.
Qed.

Lemma member_set_base fld m m' q :
  member_set fld q m = Some m' ->
  _inputs m' = _inputs m /\ _outputs m' = _outputs m /\
  _parameters m' = _parameters m /\ _data m' = _data m.
Proof.
  unfold member_set.
  destruct fld, (derived m); intros E; inversion E; auto.
Qed.

Lemma member_set_without_patches fld m m' p i :
  member_get fld m = Some p ->
  member_set fld (set_p_input i p) m = Some m' ->
  without_patches m' = without_patches m.
Proof.
  unfold member_get, member_set, without_patches.
  destruct fld, (derived m) as [|g| |f|rc] eqn:Ed; intros Eg Es;
    inversion Eg; inversion Es; subst; simpl; rewrite ?Ed; reflexivity.
Qed.

Lemma storeP_Some r p q h :
  lookupP r h = Some p -> exists h', storeP r q h = Some h'.
Proof.
  destruct r as [a|a fld]; simpl.
  - intros ->. eauto.
  - destruct (modules h !! a) as [m|]; [|discriminate].
    intros E. destruct (member_set_Some _ _ _ q E) as [m' ->]. eauto.
Qed.

Lemma lookupP_storeP_eq r q h h' :
  storeP r q h = Some h' -> lookupP r h' = Some q.
Proof.
  destruct r as [a|a fld]; simpl.
  - destruct (parameters h !! a); [|discriminate].
    intros E. inversion E. simpl. apply lookup_insert_eq.
  - destruct (modules h !! a) as [m|]; [|discriminate].
    destruct (member_set fld q m) as [m'|] eqn:Es; [|discriminate].
    intros E. inversion E. simpl. rewrite lookup_insert_eq.
    eapply member_get_set_eq, Es.
Qed.

Lemma lookupP_storeP_ne r r' q h h' :
  storeP r q h = Some h' -> r' <> r -> lookupP r' h' = lookupP r' h.
Proof.
  destruct r as [a|a fld]; simpl.
  - destruct (parameters h !! a); [|discriminate].
    intros E Hne. inversion E. destruct r' as [b|b fld']; simpl; [|reflexivity].
    apply lookup_insert_ne. congruence.
  - destruct (modules h !! a) as [m|] eqn:Em; [|discriminate].
    destruct (member_set fld q m) as [m'|] eqn:Es; [|discriminate].
    intros E Hne. inversion E. destruct r' as [b|b fld']; simpl; [reflexivity|].
    destruct (decide (a = b)) as [<-|Hab].
    + rewrite lookup_insert_eq, Em.
      eapply member_get_set_ne; [exact Es|congruence].
    + now rewrite lookup_insert_ne.
Qed.

(** Storing a parameter leaves alone every module it is not a member of. *)
Lemma storeP_modules_ne r q h h' a :
  storeP r q h = Some h' -> (forall fld, r <> Member a fld) ->
  modules h' !! a = modules h !! a.
Proof.
  destruct r as [b|b fld]; simpl.
  - destruct (parameters h !! b); [|discriminate].
    intros E _. now inversion E.
  - destruct (modules h !! b) as [m|]; [|discriminate].
    destruct (member_set fld q m) as [m'|]; [|discriminate].
    intros E Hne. inversion E. simpl. apply lookup_insert_ne.
    intros ->. now apply (Hne fld).
Qed.

Lemma readP_Ok r h p : lookupP r h = Some p -> readP r h = Ok (p, h).
Proof. intros E. unfold readP. now rewrite E. Qed.

Lemma writeP_Ok r q h h' : storeP r q h = Some h' -> writeP r q h = Ok (tt, h').
Proof. intros E. unfold writeP. now rewrite E. Qed.

Lemma getValue_Ok r h p :
  lookupP r h = Some p -> ModuleParameter_getValue r h = Ok (p_data p, h).
Proof.
  intros E. unfold ModuleParameter_getValue.
  now bind_with (readP_Ok _ _ _ E).
Qed.

(** [updateValue()] of a parameter with no patch: nothing is called and
    nothing changes. *)
Lemma updateValue_unpatched pull r h p :
  lookupP r h = Some p -> p_input p = None ->
  ModuleParameter_updateValue pull r h = Ok (tt, h).
Proof.
  intros E Ei. unfold ModuleParameter_updateValue.
  bind_with (readP_Ok _ _ _ E). now rewrite Ei.
Qed.

(** [updateValue()] of a patched parameter: one call of the source, whose
    sample is stored. *)
Lemma updateValue_patched pull r h p src x h1 p1 h2 :
  lookupP r h = Some p -> p_input p = Some src ->
  pull src h = Ok (x, h1) ->
  lookupP r h1 = Some p1 ->
  storeP r (set_p_data x p1) h1 = Some h2 ->
  ModuleParameter_updateValue pull r h = Ok (tt, h2).
Proof.
  intros E Ei Ep E1 Es. unfold ModuleParameter_updateValue.
  bind_with (readP_Ok _ _ _ E). rewrite Ei.
  bind_with Ep.
  bind_with (readP_Ok _ _ _ E1).
  now apply writeP_Ok.
Qed.

Lemma updateValue_times_unpatched fuel r n h p :
  lookupP r h = Some p -> p_input p = None ->
  updateValue_times fuel r n h = Ok (tt, h).
Proof.
  intros E Ei. induction n as [|n IH]; [reflexivity|].
  simpl. unfold updateValue.
  now bind_with (updateValue_unpatched _ _ _ _ E Ei).
Qed.

(** ** C7: assigning a literal *)

(** C7.  [operator=(d)] on a parameter stores [d] and clears the patch,
    whatever it was; after it, any number of [updateValue()] calls return
    with the store as the assignment left it, so the value stays [d] and no
    module is advanced. *)
Theorem ModuleParameter_assign_clears_patch fuel r d h p n :
  lookupP r h = Some p ->
  exists h',
    ModuleParameter_assign d r h = Ok (tt, h') /\
    lookupP r h' = Some {| p_owner := p_owner p; p_input := None; p_data := d |} /\
    updateValue_times fuel r n h' = Ok (tt, h') /\
    ModuleParameter_getValue r h' = Ok (d, h').
Proof.
  intros E.
  destruct (storeP_Some r p (set_p_data d p) h E) as [h1 E1].
  pose proof (lookupP_storeP_eq _ _ _ _ E1) as L1.
  destruct (storeP_Some r _ (set_p_input None (set_p_data d p)) h1 L1) as [h2 E2].
  pose proof (lookupP_storeP_eq _ _ _ _ E2) as L2.
  exists h2. split; [|split; [exact L2|split]].
  - unfold ModuleParameter_assign.
    bind_with (readP_Ok _ _ _ E).
    bind_with (writeP_Ok _ _ _ _ E1).
    bind_with (readP_Ok _ _ _ L1).
    now apply writeP_Ok.
  - now apply (updateValue_times_unpatched fuel r n h2 _ L2).
  - now rewrite (getValue_Ok _ _ _ L2).
Qed.

End ParameterFacts.

Lemma ModuleParameter_assign_clears_patch_witness :
  exists h',
    ModularSynth.ModuleParameter_assign (D := Q) (inject_Z 9)
      (ModularSynth.Standalone 0%nat) Examples.store = Ok (tt, h') /\
    ModularSynth.lookupP (ModularSynth.Standalone 0%nat) h'
    = Some {| ModularSynth.p_owner := None; ModularSynth.p_input := None;
              ModularSynth.p_data := inject_Z 9 |} /\
    ModularSynth.updateValue_times 3%nat (ModularSynth.Standalone 0%nat) 4%nat h'
    = Ok (tt, h') /\
    ModularSynth.ModuleParameter_getValue (ModularSynth.Standalone 0%nat) h'
    = Ok (inject_Z 9, h').
Proof.
  apply (ModuleParameter_assign_clears_patch 3%nat (ModularSynth.Standalone 0%nat)
           (inject_Z 9) Examples.store
           {| ModularSynth.p_owner := None; ModularSynth.p_input := Some 0%nat;
              ModularSynth.p_data := inject_Z 7 |} 4%nat).
  reflexivity.
Defined.

(** ** C8: patching a module into a parameter *)

Section ConnectFacts.
Context {D : Type} `{Arith D}.
Import ModularSynth.

Implicit Types (h : @heap D) (m : @Module D) (p q : @ModuleParameter D) (r : pref).

Lemma storeP_without_patches r p i h h' a :
  lookupP r h = Some p ->
  storeP r (set_p_input i p) h = Some h' ->
  without_patches <$> modules h' !! a = without_patches <$> modules h !! a.
Proof.
  destruct r as [b|b fld]; simpl.
  - intros ->. intros E. now inversion E.
  - destruct (modules h !! b) as [m|] eqn:Em; [|discriminate].
    intros Eg. destruct (member_set fld (set_p_input i p) m) as [m'|] eqn:Es; [|discriminate].
    intros E. inversion E. simpl.
    destruct (decide (b = a)) as [<-|Hne].
    + rewrite lookup_insert_eq, Em. simpl. f_equal.
      eapply member_set_without_patches; eassumption.
    + now rewrite lookup_insert_ne.
Qed.

(** C8.  [l >> r] with [r] a parameter returns a store in which [r] is patched
    to [l], whatever it was patched to, with its value and its owner as they
    were.  Every other parameter is as it was, and every module is as it was
    up to that patch: in particular no sample was pulled (the numbers held by
    the modules are the same) and the [_inputs] and [_outputs] of every module
    are the same. *)
Theorem connect_parameter_frame l r h p :
  lookupP r h = Some p ->
  exists h',
    connect_parameter l r h = Ok (tt, h') /\
    lookupP r h'
    = Some {| p_owner := p_owner p; p_input := Some l; p_data := p_data p |} /\
    (forall r', r' <> r -> lookupP r' h' = lookupP r' h) /\
    (forall a, without_patches <$> modules h' !! a = without_patches <$> modules h !! a) /\
    (forall a, _inputs <$> modules h' !! a = _inputs <$> modules h !! a) /\
    (forall a, _outputs <$> modules h' !! a = _outputs <$> modules h !! a).
Proof.
  intros E.
  destruct (storeP_Some r p (set_p_input (Some l) p) h E) as [h' Es].
  exists h'.
  assert (W : forall a,
             without_patches <$> modules h' !! a = without_patches <$> modules h !! a)
    by (intros a; eapply storeP_without_patches; eassumption).
  split; [|split; [|split; [|split; [|split]]]].
  - unfold connect_parameter.
    bind_with (readP_Ok _ _ _ E). now apply writeP_Ok.
  - exact (lookupP_storeP_eq _ _ _ _ Es).
  - intros r' Hne. eapply lookupP_storeP_ne; eassumption.
  - exact W.
  - intros a. specialize (W a).
    destruct (modules h' !! a), (modules h !! a); simpl in *; try congruence.
    inversion W. congruence.
  - intros a. specialize (W a).
    destruct (modules h' !! a), (modules h !! a); simpl in *; try congruence.
    inversion W. congruence.
Qed.

End ConnectFacts.

Lemma connect_parameter_frame_witness :
  exists h',
    ModularSynth.connect_parameter (D := Q) 0%nat
      (ModularSynth.Member 3%nat ModularSynth.F_breakpoint) Examples.store = Ok (tt, h') /\
    ModularSynth.lookupP (ModularSynth.Member 3%nat ModularSynth.F_breakpoint) h'
    = Some {| ModularSynth.p_owner := Some 3%nat; ModularSynth.p_input := Some 0%nat;
              ModularSynth.p_data := inject_Z 2000 |} /\
    (forall r', r' <> ModularSynth.Member 3%nat ModularSynth.F_breakpoint ->
                ModularSynth.lookupP r' h' = ModularSynth.lookupP r' Examples.store) /\
    (forall a, ModularSynth.without_patches <$> ModularSynth.modules h' !! a
               = ModularSynth.without_patches <$> ModularSynth.modules Examples.store !! a) /\
    (forall a, ModularSynth._inputs <$> ModularSynth.modules h' !! a
               = ModularSynth._inputs <$> ModularSynth.modules Examples.store !! a) /\
    (forall a, ModularSynth._outputs <$> ModularSynth.modules h' !! a
               = ModularSynth._outputs <$> ModularSynth.modules Examples.store !! a).
Proof.
  apply (connect_parameter_frame 0%nat
           (ModularSynth.Member 3%nat ModularSynth.F_breakpoint) Examples.store
           {| ModularSynth.p_owner := Some 3%nat; ModularSynth.p_input := Some 5%nat;
              ModularSynth.p_data := inject_Z 2000 |}).
  reflexivity.
Defined.

(** ** C3: a parameter patched to a ramp *)

Section RampFacts.
Context {D : Type} `{Arith D}.
Import ModularSynth.

Implicit Types (h : @heap D) (m : @Module D) (p q v s : @ModuleParameter D) (r : pref).

(** One call of [getNextSample()] on a [TrivialGenerator] whose [value] is not
    patched: [value] grows by [step] and the sample is the new value less
    [step]. *)
Lemma TrivialGenerator_getNextSample_unpatched fuel g h m v s :
  modules h !! g = Some m ->
  derived m = IsTrivialGenerator {| value := v; step := s |} ->
  p_input v = None ->
  getNextSample (S fuel) g h
  = Ok ((p_data v + p_data s - p_data s)%dbl,
        set_modules
          (<[g := set_derived
                    (IsTrivialGenerator
                       {| value := set_p_data (p_data v + p_data s)%dbl v; step := s |}) m]>
             (modules h)) h).
Proof.
  intros E Ed Ei.
  assert (Lv : lookupP (Member g F_value) h = Some v)
    by (simpl; rewrite E; unfold member_get; now rewrite Ed).
  assert (Ls : lookupP (Member g F_step) h = Some s)
    by (simpl; rewrite E; unfold member_get; now rewrite Ed).
  simpl. bind_with (readModule_Ok _ _ _ E). rewrite Ed.
  unfold TrivialGenerator_getNextSample.
  bind_with (updateValue_unpatched _ _ _ _ Lv Ei).
  bind_with (getValue_Ok _ _ _ Lv).
  bind_with (getValue_Ok _ _ _ Ls).
  bind_with (readP_Ok _ _ _ Lv).
  erewrite bind_Ok
    by (apply writeP_Ok; simpl; rewrite E; unfold member_set; rewrite Ed; reflexivity).
  erewrite bind_Ok
    by (apply getValue_Ok; simpl; rewrite lookup_insert_eq; reflexivity).
  erewrite bind_Ok
    by (apply getValue_Ok; simpl; rewrite lookup_insert_eq; reflexivity).
  reflexivity.
Qed.

(** A parameter that is not a member of the module at [g] does not move when
    that module is written. *)
Lemma lookupP_set_modules_ne r g m h :
  (forall fld, r <> Member g fld) ->
  lookupP r (set_modules (<[g := m]> (modules h)) h) = lookupP r h.
Proof.
  intros Hne. destruct r as [a|a fld]; simpl; [reflexivity|].
  rewrite lookup_insert_ne; [reflexivity|].
  intros ->. now apply (Hne fld).
Qed.

(** One [updateValue()] of a parameter patched to a ramp that stands at [k]. *)
Lemma updateValue_ramp_step fuel r g h p m v s k :
  lookupP r h = Some p -> p_input p = Some g ->
  (forall fld, r <> Member g fld) ->
  modules h !! g = Some m ->
  derived m = IsTrivialGenerator {| value := v; step := s |} ->
  p_input v = None -> p_data v = d_of_Z k -> p_data s = d_of_Z 1 ->
  (d_of_Z k + d_of_Z 1)%dbl = d_of_Z (k + 1) ->
  (d_of_Z (k + 1) - d_of_Z 1)%dbl = d_of_Z k ->
  exists h1 m1 v1,
    updateValue (S fuel) r h = Ok (tt, h1) /\
    lookupP r h1 = Some (set_p_data (d_of_Z k) p) /\
    modules h1 !! g = Some m1 /\
    derived m1 = IsTrivialGenerator {| value := v1; step := s |} /\
    p_input v1 = None /\ p_data v1 = d_of_Z (k + 1).
Proof.
  intros E Ei Hne Eg Ed Evi Ev Es Hadd Hsub.
  pose proof (TrivialGenerator_getNextSample_unpatched fuel g h m v s Eg Ed Evi) as Hpull.
  rewrite Ev, Es, Hadd, Hsub in Hpull.
  set (m1 := set_derived
               (IsTrivialGenerator
                  {| value := set_p_data (d_of_Z (k + 1)) v; step := s |}) m) in *.
  set (hg := set_modules (<[g := m1]> (modules h)) h) in *.
  assert (Lr : lookupP r hg = Some p)
    by (unfold hg; rewrite lookupP_set_modules_ne; assumption).
  destruct (storeP_Some r p (set_p_data (d_of_Z k) p) hg Lr) as [h1 E1].
  exists h1, m1, (set_p_data (d_of_Z (k + 1)) v).
  split; [|split; [|split; [|split; [|split]]]].
  - unfold updateValue. eapply updateValue_patched; eassumption.
  - eapply lookupP_storeP_eq, E1.
  - rewrite (storeP_modules_ne _ _ _ _ g E1 Hne). unfold hg. simpl.
    apply lookup_insert_eq.
  - reflexivity.
  - exact Evi.
  - reflexivity.
Qed.

(** [j] calls in a row, from a ramp that stands at [k]. *)
Lemma updateValue_times_ramp fuel r g s (j : nat) :
  forall k h p m v,
  lookupP r h = Some p -> p_input p = Some g ->
  (forall fld, r <> Member g fld) ->
  modules h !! g = Some m ->
  derived m = IsTrivialGenerator {| value := v; step := s |} ->
  p_input v = None -> p_data v = d_of_Z k -> p_data s = d_of_Z 1 ->
  (forall i, k <= i < k + Z.of_nat j ->
     (d_of_Z i + d_of_Z 1)%dbl = d_of_Z (i + 1) /\
     (d_of_Z (i + 1) - d_of_Z 1)%dbl = d_of_Z i) ->
  exists h' p' m' v',
    updateValue_times (S fuel) r j h = Ok (tt, h') /\
    lookupP r h' = Some p' /\ p_input p' = Some g /\
    (0 < Z.of_nat j -> p_data p' = d_of_Z (k + Z.of_nat j - 1)) /\
    modules h' !! g = Some m' /\
    derived m' = IsTrivialGenerator {| value := v'; step := s |} /\
    p_input v' = None /\ p_data v' = d_of_Z (k + Z.of_nat j).
Proof.
  induction j as [|j IH]; intros k h p m v E Ei Hne Eg Ed Evi Ev Es Hex.
  - exists h, p, m, v. simpl. rewrite Z.add_0_r.
    repeat (split; [first [reflexivity | assumption | lia]|]). assumption.
  - destruct (Hex k ltac:(lia)) as [Hadd Hsub].
    destruct (updateValue_ramp_step fuel r g h p m v s k
                E Ei Hne Eg Ed Evi Ev Es Hadd Hsub)
      as (h1 & m1 & v1 & Hup & L1 & Eg1 & Ed1 & Evi1 & Ev1).
    destruct (IH (k + 1) h1 _ m1 v1 L1 Ei Hne Eg1 Ed1 Evi1 Ev1 Es)
      as (h' & p' & m' & v' & Hrun & L' & Ei' & Hp' & Eg' & Ed' & Evi' & Ev').
    { intros i Hi. apply Hex. lia. }
    exists h', p', m', v'.
    split; [|split; [|split; [|split; [|split; [|split; [|split]]]]]];
      try assumption.
    + simpl. now bind_with Hup.
    + intros _. destruct j as [|j'].
      * simpl in Hrun. inversion Hrun; subst h'.
        rewrite L1 in L'. inversion L'. simpl. f_equal. lia.
      * rewrite Hp' by lia. f_equal. lia.
    + rewrite Ev'. f_equal. lia.
Qed.

(** C3.  A parameter [r] patched to a [TrivialGenerator] at [g] whose [value]
    holds 0 and is not patched and whose [step] holds 1: the call of
    [updateValue()] number [n], counted from 0, returns and leaves [n] in
    the parameter, the generator having been advanced once per call (its
    [value] holds [n + 1]).  An [updateValue()] of a parameter with no patch
    returns the store it was given.  The numbers are those of the carrier:
    counting up to [n + 1] in it is assumed exact. *)
Theorem updateValue_reads_ramp fuel r g h p m v s (n : nat) :
  lookupP r h = Some p -> p_input p = Some g ->
  (forall fld, r <> Member g fld) ->
  modules h !! g = Some m ->
  derived m = IsTrivialGenerator {| value := v; step := s |} ->
  p_input v = None -> p_data v = d_of_Z 0 -> p_data s = d_of_Z 1 ->
  counts_exactly (Z.of_nat n) ->
  (exists h',
     updateValue_times (S fuel) r (S n) h = Ok (tt, h') /\
     ModuleParameter_getValue r h' = Ok (d_of_Z (Z.of_nat n), h') /\
     ModuleParameter_getValue (Member g F_value) h'
     = Ok (d_of_Z (Z.of_nat n + 1), h')) /\
  (forall r0 h0 p0,
     lookupP r0 h0 = Some p0 -> p_input p0 = None ->
     updateValue (S fuel) r0 h0 = Ok (tt, h0)).
Proof.
  intros E Ei Hne Eg Ed Evi Ev Es Hex. split.
  - destruct (updateValue_times_ramp fuel r g s (S n) 0 h p m v
                E Ei Hne Eg Ed Evi Ev Es)
      as (h' & p' & m' & v' & Hrun & L' & _ & Hp' & Eg' & Ed' & _ & Ev').
    { intros i Hi. apply Hex. lia. }
    exists h'. split; [exact Hrun|split].
    + rewrite (getValue_Ok _ _ _ L'), Hp' by lia. do 3 f_equal. lia.
    + erewrite getValue_Ok
        by (simpl; rewrite Eg'; unfold member_get; rewrite Ed'; reflexivity).
      simpl. rewrite Ev'. do 3 f_equal. lia.
  - intros r0 h0 p0 E0 Ei0. unfold updateValue.
    eapply updateValue_unpatched; eassumption.
Qed.

End RampFacts.

Lemma updateValue_reads_ramp_witness :
  (exists h',
     ModularSynth.updateValue_times (D := Q) 1%nat (ModularSynth.Standalone 0%nat) 4%nat
       Examples.store = Ok (tt, h') /\
     ModularSynth.ModuleParameter_getValue (ModularSynth.Standalone 0%nat) h'
     = Ok (inject_Z 3, h') /\
     ModularSynth.ModuleParameter_getValue (ModularSynth.Member 0%nat ModularSynth.F_value) h'
     = Ok (inject_Z 4, h')) /\
  (forall r0 h0 p0,
     ModularSynth.lookupP r0 h0 = Some p0 -> ModularSynth.p_input p0 = None ->
     ModularSynth.updateValue (D := Q) 1%nat r0 h0 = Ok (tt, h0)).
Proof.
  assert (Hexact : counts_exactly (D := Q) (Z.of_nat 3)).
  { intros k Hk.
    assert (Hcases : k = 0 \/ k = 1 \/ k = 2 \/ k = 3) by lia.
    destruct Hcases as [-> | [-> | [-> | ->]]]; split; reflexivity. }
  exact (updateValue_reads_ramp 0%nat (ModularSynth.Standalone 0%nat) 0%nat Examples.store
           {| ModularSynth.p_owner := None; ModularSynth.p_input := Some 0%nat;
              ModularSynth.p_data := inject_Z 7 |}
           (Examples.module_of (ModularSynth.IsTrivialGenerator Examples.ramp) [])
           (ModularSynth.ModuleParameter_new (inject_Z 0))
           (ModularSynth.ModuleParameter_new (inject_Z 1)) 3%nat
           eq_refl eq_refl (fun fld => ltac:(discriminate))
           eq_refl eq_refl eq_refl eq_refl eq_refl Hexact).
Defined.

(** ** C9: [setData] *)

Section SetDataFacts.
Context {D : Type} `{Arith D}.
Import ModularSynth.

(** C9.  [setData(d)] on the module at [self] copies [d] into the control
    block and then sets [initialized], whatever [d.initialized] was; [getData()]
    then returns [initialized == true] with the sample rate of [d].  The
    body of [_dataSet] is not in the header: the call [_dataSet(nullptr)]
    that ends [setData] is taken to return on a store that holds the module
    and to leave the control block of the module itself as it found it. *)
Theorem setData_marks_initialized
    (_dataSet : option ptr -> ptr -> M (@heap D) unit) d self (h : @heap D) m :
  (forall h1, is_Some (modules h1 !! self) ->
              exists h2, _dataSet None self h1 = Ok (tt, h2)) ->
  (forall h1 h2, _dataSet None self h1 = Ok (tt, h2) ->
                 _data <$> modules h2 !! self = _data <$> modules h1 !! self) ->
  modules h !! self = Some m ->
  exists h',
    ModuleBase_setData _dataSet d self h = Ok (tt, h') /\
    ModuleBase_getData self h'
    = Ok ({| initialized := true; sampleRate := sampleRate d |}, h').
Proof.
  intros Hret Hframe E.
  set (h1 := set_modules
               (<[self := set_data {| initialized := true; sampleRate := sampleRate d |} m]>
                  (modules h)) h).
  destruct (Hret h1) as [h' Hds].
  { unfold h1. rewrite modules_insert_eq. eauto. }
  exists h'. split.
  - unfold ModuleBase_setData.
    bind_with (readModule_Ok _ _ _ E).
    unfold writeModule at 1. unfold bind at 1.
    erewrite bind_Ok by (apply readModule_Ok, modules_insert_eq).
    unfold writeModule, bind. rewrite set_modules_twice. exact Hds.
  - unfold ModuleBase_getData.
    pose proof (Hframe _ _ Hds) as Hd.
    unfold h1 in Hd. rewrite modules_insert_eq in Hd.
    destruct (modules h' !! self) as [m'|] eqn:E'; [|discriminate].
    bind_with (readModule_Ok _ _ _ E').
    simpl in Hd. inversion Hd as [Hd']. reflexivity.
Qed.

End SetDataFacts.

Lemma propagate_frame (c : ModularSynth.ModuleControlData_t (D := Q)) (self : ptr)
    (l : list ptr) (ms : gmap ptr ModularSynth.Module) :
  ModularSynth._data <$> ms !! self = Some c ->
  ModularSynth._data
    <$> foldr (fun a ms => alter (ModularSynth.set_data c) a ms) ms l !! self
  = Some c.
Proof.
  intros E. induction l as [|a l IH]; simpl; [exact E|].
  rewrite lookup_alter. destruct (decide (a = self)) as [->|Hne]; [|exact IH].
  destruct (foldr _ ms l !! self); [reflexivity|discriminate].
Qed.

Lemma setData_marks_initialized_witness :
  exists h',
    ModularSynth.ModuleBase_setData Examples.propagate
      {| ModularSynth.initialized := false; ModularSynth.sampleRate := inject_Z 44100 |}
      1%nat Examples.store = Ok (tt, h') /\
    ModularSynth.ModuleBase_getData 1%nat h'
    = Ok ({| ModularSynth.initialized := true;
             ModularSynth.sampleRate := inject_Z 44100 |}, h').
Proof.
  apply (setData_marks_initialized Examples.propagate
           {| ModularSynth.initialized := false; ModularSynth.sampleRate := inject_Z 44100 |}
           1%nat Examples.store
           (Examples.module_of (ModularSynth.IsFIRFilter Examples.three_taps) [0%nat])).
  - intros h1 [m1 E1]. unfold Examples.propagate. cbv beta. rewrite E1. eauto.
  - intros h1 h2. unfold Examples.propagate. cbv beta.
    destruct (_ !! _) as [m1|] eqn:E1; [|intros E2; discriminate E2].
    intros E2. inversion E2. simpl.
    apply propagate_frame. now rewrite E1.
  - reflexivity.
Defined.

(** ** C6: the number of taps *)

Section FIRSetupFacts.
Context {D : Type} `{Arith D}.
Import ModularSynth.

Implicit Types (h : @heap D) (m : @Module D) (f : @FIRFilter D).

Lemma odd_count_range coefficientCount :
  is_uint coefficientCount -> coefficientCount <= INT_MAX ->
  1 <= odd_count coefficientCount <= INT_MAX /\
  Z.odd (odd_count coefficientCount) = true.
Proof.
  unfold odd_count, is_uint, INT_MAX. intros Hu Hmax.
  pose proof (Z.div_mod coefficientCount 2 ltac:(lia)) as Hdiv.
  pose proof (Z.mod_pos_bound coefficientCount 2 ltac:(lia)) as Hbound.
  destruct (coefficientCount mod 2 =? 0) eqn:Hpar.
  - apply Z.eqb_eq in Hpar. split; [lia|].
    rewrite Z.add_1_r, Z.odd_succ, Zeven_mod, Hpar. reflexivity.
  - apply Z.eqb_neq in Hpar. split; [lia|].
    rewrite Zodd_mod. apply Z.eqb_eq. lia.
Qed.

(** [setup(filterType, coefficientCount)] for a count that fits in an [int]. *)
Lemma FIRFilter_setup_in_range filterType coefficientCount self h m f :
  is_uint coefficientCount -> coefficientCount <= INT_MAX ->
  modules h !! self = Some m -> derived m = IsFIRFilter f ->
  FIRFilter_setup filterType coefficientCount self h
  = Ok (tt, set_modules
              (<[self := set_derived
                           (IsFIRFilter
                              {| _filterType := _filterType f;
                                 _coefCount := odd_count coefficientCount;
                                 _coefficients := _coefficients f;
                                 _inputSamples :=
                                   repeat (d_of_Z 0)
                                     (Z.to_nat (odd_count coefficientCount)) |}) m]>
                 (modules h)) h).
Proof.
  intros Hu Hmax E Ed.
  destruct (odd_count_range _ Hu Hmax) as [Hrange _].
  assert (Hconv : to_int (if coefficientCount mod 2 =? 0
                          then to_uint (coefficientCount + 1) else coefficientCount)
                  = odd_count coefficientCount).
  { unfold odd_count in *.
    destruct (coefficientCount mod 2 =? 0).
    - rewrite to_uint_small by (unfold is_uint, INT_MAX in *; lia).
      apply to_int_small. unfold INT_MAX in *. lia.
    - apply to_int_small. unfold INT_MAX, is_uint in *. lia. }
  unfold FIRFilter_setup. rewrite Hconv.
  bind_with (readFIR_Ok _ _ _ _ E Ed).
  bind_with (writeFIR_Ok _ _ _ _ E).
  erewrite bind_Ok by (eapply readFIR_Ok; [apply modules_insert_eq|reflexivity]).
  unfold deque_assign. cbn [_coefCount set_coefCount].
  destruct (odd_count coefficientCount <? 0) eqn:Hneg; [apply Z.ltb_lt in Hneg; lia|].
  unfold ret at 1. unfold bind at 1.
  erewrite writeFIR_Ok by apply modules_insert_eq.
  rewrite set_modules_twice. reflexivity.
Qed.

(** C6, amended.  For a [coefficientCount] that an [int] can hold,
    [setup(filterType, coefficientCount)] returns with [_coefCount] equal to
    [coefficientCount] when that is odd and to [coefficientCount + 1] when it
    is even, and with an input history of exactly that many zeros; the other
    fields of the filter and the rest of the store are as they were. *)
Theorem FIRFilter_setup_odd_count filterType coefficientCount self h m f :
  is_uint coefficientCount -> coefficientCount <= INT_MAX ->
  modules h !! self = Some m -> derived m = IsFIRFilter f ->
  let n := if coefficientCount mod 2 =? 0 then coefficientCount + 1
           else coefficientCount in
  FIRFilter_setup filterType coefficientCount self h
  = Ok (tt, set_modules
              (<[self := set_derived
                           (IsFIRFilter
                              {| _filterType := _filterType f; _coefCount := n;
                                 _coefficients := _coefficients f;
                                 _inputSamples := repeat (d_of_Z 0) (Z.to_nat n) |}) m]>
                 (modules h)) h) /\
  Z.odd n = true /\
  Z.of_nat (length (repeat (d_of_Z 0) (Z.to_nat n))) = n.
Proof.
  intros Hu Hmax E Ed n.
  destruct (odd_count_range _ Hu Hmax) as [Hrange Hodd].
  change n with (odd_count coefficientCount).
  split; [|split; [exact Hodd|]].
  - now apply FIRFilter_setup_in_range.
  - rewrite repeat_length. lia.
Qed.

End FIRSetupFacts.

Lemma FIRFilter_setup_odd_count_witness :
  ModularSynth.FIRFilter_setup (D := Q) ModularSynth.HIGH_PASS 4 4%nat Examples.store
  = Ok (tt, ModularSynth.set_modules
              (<[4%nat := Examples.module_of
                            (ModularSynth.IsFIRFilter
                               {| ModularSynth._filterType := ModularSynth.LOW_PASS;
                                  ModularSynth._coefCount := 5;
                                  ModularSynth._coefficients := [];
                                  ModularSynth._inputSamples := repeat (inject_Z 0) 5 |}) []]>
                 (ModularSynth.modules Examples.store)) Examples.store) /\
  Z.odd 5 = true /\
  Z.of_nat (length (repeat (inject_Z 0) 5)) = 5.
Proof.
  exact (FIRFilter_setup_odd_count (D := Q) ModularSynth.HIGH_PASS 4 4%nat Examples.store
           (Examples.module_of (ModularSynth.IsFIRFilter ModularSynth.FIRFilter_new) [])
           ModularSynth.FIRFilter_new
           ltac:(unfold is_uint; lia) ltac:(unfold INT_MAX; lia) eq_refl eq_refl).
Defined.

(** C6 as stated fails: [UINT_MAX] is an odd [unsigned int], yet stored in the
    [int] field [_coefCount] it is [-1], and the history cannot be assigned. *)
Lemma FIRFilter_setup_uint_max :
  is_uint 4294967295 /\
  Z.odd 4294967295 = true /\
  ModularSynth.FIRFilter_setup (D := Q) ModularSynth.LOW_PASS 4294967295 4%nat Examples.store
  = Fault LengthError.
Proof.
  split; [unfold is_uint; lia|split; reflexivity].
Qed.

(** ** C2: the high-pass kernel *)

Section FIRCutoffFacts.
Context {D : Type} `{Arith D}.
Import ModularSynth.

Implicit Types (h : @heap D) (m : @Module D) (f : @FIRFilter D).

Lemma odd_count_odd n : Z.odd n = true -> odd_count n = n.
Proof.
  intros Ho. unfold odd_count.
  rewrite Zodd_mod in Ho. apply Z.eqb_eq in Ho. now rewrite Ho.
Qed.

Lemma set_derived_same m d : derived m = d -> set_derived d m = m.
Proof. destruct m. simpl. now intros ->. Qed.

Lemma set_coefficients_same f : set_coefficients (_coefficients f) f = f.
Proof. now destruct f. Qed.

(** The first loop of [setCutoff]: one coefficient is appended per index. *)
Lemma for_each_push_coefficient self omega (l : list Z) :
  forall h m f,
  modules h !! self = Some m -> derived m = IsFIRFilter f ->
  exists h',
    for_each l (FIRFilter_push_coefficient self omega) h = Ok (tt, h') /\
    modules h' !! self
    = Some (set_derived
              (IsFIRFilter
                 (set_coefficients
                    (_coefficients f ++ map (fun i => FIRFilter_calcH i omega) l) f)) m).
Proof.
  induction l as [|i l IH]; intros h m f E Ed.
  - exists h. split; [reflexivity|].
    simpl. rewrite app_nil_r, set_coefficients_same, (set_derived_same _ _ Ed).
    exact E.
  - assert (Hpush : FIRFilter_push_coefficient self omega i h
                    = Ok (tt, set_modules
                                (<[self := set_derived
                                             (IsFIRFilter
                                                (set_coefficients
                                                   (_coefficients f ++ [FIRFilter_calcH i omega])
                                                   f)) m]> (modules h)) h)).
    { unfold FIRFilter_push_coefficient.
      bind_with (readFIR_Ok _ _ _ _ E Ed).
      apply (writeFIR_Ok _ _ _ _ E). }
    change (for_each (i :: l) (FIRFilter_push_coefficient self omega))
      with (bind (FIRFilter_push_coefficient self omega i)
              (fun _ => for_each l (FIRFilter_push_coefficient self omega))).
    bind_with Hpush.
    destruct (IH _ (set_derived
                      (IsFIRFilter
                         (set_coefficients
                            (_coefficients f ++ [FIRFilter_calcH i omega]) f)) m)
                (set_coefficients (_coefficients f ++ [FIRFilter_calcH i omega]) f)
                (modules_insert_eq self _ h) eq_refl) as (h' & Hrun & E').
    exists h'. split; [exact Hrun|].
    rewrite E'. simpl. now rewrite <- app_assoc.
Qed.

Lemma int_range_head lo hi :
  lo <= hi -> exists l, int_range lo hi = lo :: l.
Proof.
  intros Hle. unfold int_range.
  destruct (Z.to_nat (hi - lo + 1)) as [|k] eqn:Ek; [lia|].
  simpl. rewrite Z.add_0_r. eauto.
Qed.

Lemma quot_half_bounds n :
  3 <= n -> Z.quot (- n) 2 < 0 /\ Z.quot (- n) 2 <= Z.quot n 2.
Proof.
  intros Hn. rewrite Z.quot_opp_l by lia.
  rewrite Z.quot_div_nonneg by lia.
  pose proof (Z.div_mod n 2 ltac:(lia)).
  pose proof (Z.mod_pos_bound n 2 ltac:(lia)). lia.
Qed.

(** C2.  The claim asks for the low-pass kernel with alternating signs and
    for indices within bounds when the filter was set up as [HIGH_PASS].
    The code gives neither.  [setup(HIGH_PASS, n)] does not store the filter
    type, so that on a filter whose type is [LOW_PASS], as the constructor
    leaves it, [setCutoff] after [setup(HIGH_PASS, n)] returns with the plain
    low-pass kernel.  And were the type field [HIGH_PASS], the loop of
    [setCutoff] that changes the signs would start at the index [-n/2], below
    zero, and fault on it. *)
Theorem FIRFilter_setCutoff_HIGH_PASS cutoff n self h m f :
  Z.odd n = true -> 3 <= n <= INT_MAX ->
  modules h !! self = Some m -> derived m = IsFIRFilter f ->
  (_filterType f = LOW_PASS ->
   exists h1 h2 f2,
     FIRFilter_setup HIGH_PASS n self h = Ok (tt, h1) /\
     FIRFilter_setCutoff cutoff self h1 = Ok (tt, h2) /\
     readFIR self h2 = Ok (f2, h2) /\
     _filterType f2 = LOW_PASS /\
     _coefficients f2
     = low_pass_kernel n (PI * cutoff / (sampleRate (_data m) / d_of_Z 2))%dbl) /\
  (_filterType f = HIGH_PASS -> _coefCount f = n ->
   FIRFilter_setCutoff cutoff self h = Fault OutOfRange).
Proof.
  intros Hodd Hn E Ed.
  destruct (quot_half_bounds n ltac:(lia)) as [Hlo Hle].
  split.
  - intros Hty. destruct f as [ty cc coefs hist]. simpl in Hty. subst ty.
    pose proof (FIRFilter_setup_in_range HIGH_PASS n self h m _
                  ltac:(unfold is_uint, INT_MAX in *; lia) ltac:(lia) E Ed)
      as Hsetup.
    rewrite (odd_count_odd _ Hodd) in Hsetup.
    eexists. rewrite Hsetup.
    match goal with |- context [Ok (tt, ?x)] => set (h1 := x) end.
    cbn [_filterType _coefficients] in Hsetup |- *.
    set (f1 := {| _filterType := LOW_PASS; _coefCount := n;
                  _coefficients := coefs;
                  _inputSamples := repeat (d_of_Z 0) (Z.to_nat n) |}) in *.
    assert (E1 : modules h1 !! self = Some (set_derived (IsFIRFilter f1) m))
      by apply modules_insert_eq.
    destruct (for_each_push_coefficient self
                (PI * cutoff / (sampleRate (_data m) / d_of_Z 2))%dbl
                (int_range (Z.quot (- n) 2) (Z.quot n 2))
                _ _ (set_coefficients [] f1)
                (modules_insert_eq self
                   (set_derived (IsFIRFilter (set_coefficients [] f1))
                      (set_derived (IsFIRFilter f1) m)) h1) eq_refl)
      as (h2 & Hpush & E2).
    exists h2. eexists. split; [reflexivity|].
    assert (R2 : readFIR self h2
                 = Ok (set_coefficients
                         (low_pass_kernel n
                            (PI * cutoff / (sampleRate (_data m) / d_of_Z 2))%dbl)
                         (set_coefficients [] f1), h2))
      by (eapply readFIR_Ok; [exact E2|reflexivity]).
    split; [|split; [exact R2|split; reflexivity]].
    unfold FIRFilter_setCutoff.
    bind_with (readFIR_Ok _ _ _ _ E1 eq_refl).
    change (_filterType f1) with (@LOW_PASS). cbv iota.
    bind_with (readModule_Ok _ _ _ E1).
    bind_with (writeFIR_Ok _ _ _ _ E1).
    change (_coefCount f1) with n.
    change (_data (set_derived (IsFIRFilter f1) m)) with (_data m).
    bind_with Hpush.
    bind_with R2.
    reflexivity.
  - intros Hty Hcount.
    destruct (for_each_push_coefficient self
                (PI * cutoff / (sampleRate (_data m) / d_of_Z 2))%dbl
                (int_range (Z.quot (- n) 2) (Z.quot n 2))
                _ _ (set_coefficients [] f)
                (modules_insert_eq self
                   (set_derived (IsFIRFilter (set_coefficients [] f)) m) h) eq_refl)
      as (h2 & Hpush & E2).
    destruct (int_range_head _ _ Hle) as [l Hl].
    unfold FIRFilter_setCutoff.
    bind_with (readFIR_Ok _ _ _ _ E Ed).
    rewrite Hty. cbv iota.
    bind_with (readModule_Ok _ _ _ E).
    bind_with (writeFIR_Ok _ _ _ _ E).
    rewrite Hcount.
    bind_with Hpush.
    erewrite bind_Ok by (eapply readFIR_Ok; [exact E2|reflexivity]).
    cbn [_filterType set_coefficients]. rewrite Hty. cbv iota. rewrite Hl.
    change (for_each (Z.quot (- n) 2 :: l) (FIRFilter_modulate self))
      with (bind (FIRFilter_modulate self (Z.quot (- n) 2))
              (fun _ => for_each l (FIRFilter_modulate self))).
    apply bind_Fault. unfold FIRFilter_modulate.
    erewrite bind_Ok by (eapply readFIR_Ok; [exact E2|reflexivity]).
    apply Z.ltb_lt in Hlo. now rewrite Hlo.
Qed.

End FIRCutoffFacts.

Lemma FIRFilter_setCutoff_HIGH_PASS_witness :
  (exists h1 h2 f2,
     ModularSynth.FIRFilter_setup (D := Q) ModularSynth.HIGH_PASS 3 4%nat Examples.store
     = Ok (tt, h1) /\
     ModularSynth.FIRFilter_setCutoff (inject_Z 1000) 4%nat h1 = Ok (tt, h2) /\
     ModularSynth.readFIR 4%nat h2 = Ok (f2, h2) /\
     ModularSynth._filterType f2 = ModularSynth.LOW_PASS /\
     ModularSynth._coefficients f2
     = ModularSynth.low_pass_kernel 3
         (PI * inject_Z 1000 / (inject_Z 48000 / d_of_Z 2))%dbl) /\
  ModularSynth.FIRFilter_setCutoff (D := Q) (inject_Z 1000) 6%nat Examples.store
  = Fault OutOfRange.
Proof.
  split.
  - exact (proj1
             (FIRFilter_setCutoff_HIGH_PASS (D := Q) (inject_Z 1000) 3 4%nat Examples.store
                (Examples.module_of (ModularSynth.IsFIRFilter ModularSynth.FIRFilter_new) [])
                ModularSynth.FIRFilter_new
                eq_refl ltac:(unfold INT_MAX; lia) eq_refl eq_refl)
             eq_refl).
  - exact (proj2
             (FIRFilter_setCutoff_HIGH_PASS (D := Q) (inject_Z 1000) 3 6%nat Examples.store
                (Examples.module_of
                   (ModularSynth.IsFIRFilter
                      (ModularSynth.set_filterType ModularSynth.HIGH_PASS Examples.three_taps))
                   [0%nat])
                (ModularSynth.set_filterType ModularSynth.HIGH_PASS Examples.three_taps)
                eq_refl ltac:(unfold INT_MAX; lia) eq_refl eq_refl)
             eq_refl eq_refl).
Defined.

(** ** C4: the sliding window of the FIR filter *)

Section FIRStepFacts.
Context {D : Type} `{Arith D}.
Import ModularSynth.

Implicit Types (h : @heap D) (m : @Module D) (f : @FIRFilter D).

(** The loop of [getNextSample] from index [i] on, when both vectors have
    [i + n] elements: no index is out of range and the products are summed. *)
Lemma FIRFilter_convolve_sum (samples coefs : list D) (n : nat) :
  forall (i : nat) (y : D),
  length samples = (i + n)%nat -> length coefs = (i + n)%nat ->
  FIRFilter_convolve samples coefs i n y
  = Ok (fold_left (fun y sc => (y + fst sc * snd sc)%dbl)
          (combine (drop i samples) (drop i coefs)) y).
Proof.
  induction n as [|n IH]; intros i y Hs Hc; simpl.
  - rewrite (drop_ge samples i) by lia. reflexivity.
  - destruct (lookup_lt_is_Some_2 samples i ltac:(lia)) as [s Es].
    destruct (lookup_lt_is_Some_2 coefs i ltac:(lia)) as [c Ec].
    rewrite Es, Ec.
    rewrite IH by lia.
    rewrite (drop_S _ _ _ Es), (drop_S _ _ _ Ec). reflexivity.
Qed.

(** C4, amended.  A FIR filter whose history and coefficient vector both hold
    [N = _coefCount] numbers, [N] at least one, with an input connected that
    returns a sample [x] and does not reach back into the filter: the call
    drops the oldest stored sample, appends [x], so that the history holds
    [N] numbers again, and returns the dot product of the new history with
    the coefficients. *)
Theorem FIRFilter_getNextSample_window fuel self h m f inp rest oldest hist x h1 :
  modules h !! self = Some m -> derived m = IsFIRFilter f ->
  _inputs m = inp :: rest ->
  _inputSamples f = oldest :: hist ->
  _coefCount f = Z.of_nat (length (oldest :: hist)) ->
  length (_coefficients f) = length (oldest :: hist) ->
  getNextSample fuel inp
    (set_modules
       (<[self := set_derived (IsFIRFilter (set_inputSamples hist f)) m]> (modules h)) h)
  = Ok (x, h1) ->
  modules h1 !! self = Some (set_derived (IsFIRFilter (set_inputSamples hist f)) m) ->
  getNextSample (S fuel) self h
  = Ok (dot_product (hist ++ [x]) (_coefficients f),
        set_modules
          (<[self := set_derived (IsFIRFilter (set_inputSamples (hist ++ [x]) f)) m]>
             (modules h1)) h1) /\
  length (hist ++ [x]) = length (oldest :: hist).
Proof.
  intros E Ed Ei Eh Ec El Hpull E1.
  assert (Hlen : length (hist ++ [x]) = length (oldest :: hist))
    by (rewrite length_app; simpl; lia).
  split; [|exact Hlen].
  simpl getNextSample.
  bind_with (readModule_Ok _ _ _ E). rewrite Ed.
  unfold FIRFilter_getNextSample.
  bind_with (readFIR_Ok _ _ _ _ E Ed). rewrite Eh.
  bind_with (writeFIR_Ok _ _ _ _ E).
  erewrite bind_Ok by (apply readModule_Ok, modules_insert_eq).
  cbn [_inputs set_derived]. rewrite Ei.
  replace (set_derived
             (IsFIRFilter
                {| _filterType := _filterType f; _coefCount := _coefCount f;
                   _coefficients := _coefficients f; _inputSamples := hist |}) m)
    with (set_derived (IsFIRFilter (set_inputSamples hist f)) m) by reflexivity.
  bind_with Hpull.
  bind_with (readFIR_Ok _ _ _ _ E1 eq_refl).
  bind_with (writeFIR_Ok _ _ _ _ E1).
  erewrite bind_Ok by (eapply readFIR_Ok; [apply modules_insert_eq|reflexivity]).
  cbn [_inputSamples _coefficients _coefCount set_inputSamples].
  rewrite Ec, Nat2Z.id.
  rewrite FIRFilter_convolve_sum by (simpl in *; lia).
  reflexivity.
Qed.

End FIRStepFacts.

Lemma FIRFilter_getNextSample_window_witness :
  exists h',
    ModularSynth.getNextSample (D := Q) 2%nat 1%nat Examples.store
    = Ok (ModularSynth.dot_product ([inject_Z 5; inject_Z 6] ++ [inject_Z 0])
            [inject_Z 1; inject_Z 2; inject_Z 3], h') /\
    length ([inject_Z 5; inject_Z 6] ++ [inject_Z 0])
    = length [inject_Z 4; inject_Z 5; inject_Z 6].
Proof.
  eexists.
  eapply (FIRFilter_getNextSample_window (D := Q) 1%nat 1%nat Examples.store
            (Examples.module_of (ModularSynth.IsFIRFilter Examples.three_taps) [0%nat])
            Examples.three_taps 0%nat [] (inject_Z 4) [inject_Z 5; inject_Z 6] (inject_Z 0));
    reflexivity.
Defined.

(** C4 as stated fails: [setup(filterType, N)] alone stores [N] zeros as the
    history and no coefficient, so that with an input connected the first call
    of [getNextSample()] reads [_coefficients[0]] of an empty vector. *)
Lemma FIRFilter_getNextSample_setup_only :
  exists h1,
    ModularSynth.FIRFilter_setup (D := Q) ModularSynth.LOW_PASS 3 1%nat Examples.fresh_bench
    = Ok (tt, h1) /\
    (exists m f,
       ModularSynth.modules h1 !! 1%nat = Some m /\
       ModularSynth.derived m = ModularSynth.IsFIRFilter f /\
       ModularSynth._coefCount f = 3 /\
       ModularSynth._inputs m = [0%nat] /\
       length (ModularSynth._inputSamples f) = 3%nat /\
       ModularSynth._coefficients f = []) /\
    ModularSynth.getNextSample 2%nat 1%nat h1 = Fault OutOfRange.
Proof.
  eexists. split; [reflexivity|]. split; [|reflexivity].
  do 2 eexists. repeat (split; [reflexivity|]). reflexivity.
Qed.

(** ** C5: the RC filter *)

Section RCFacts.
Context {D : Type} `{Arith D}.
Import ModularSynth.

Implicit Types (h : @heap D) (m : @Module D) (rc : @RCFilter D).

Lemma set_p_data_same (p : @ModuleParameter D) : set_p_data (p_data p) p = p.
Proof. now destruct p. Qed.

Lemma readRC_Ok self h m rc :
  modules h !! self = Some m -> derived m = IsRCFilter rc ->
  readRC self h = Ok (rc, h).
Proof.
  intros E Ed. unfold readRC.
  bind_with (readModule_Ok _ _ _ E). now rewrite Ed.
Qed.

Lemma writeRC_Ok self h m rc :
  modules h !! self = Some m ->
  writeRC self rc h
  = Ok (tt, set_modules (<[self := set_derived (IsRCFilter rc) m]> (modules h)) h).
Proof.
  intros E. unfold writeRC.
  now bind_with (readModule_Ok _ _ _ E).
Qed.

(** [_update(v1)] once the breakpoint holds [b]: the state moves towards [v1]
    and is returned. *)
Lemma RCFilter_update_tail self h m bp v0 v1 :
  modules h !! self = Some m ->
  derived m = IsRCFilter {| breakpoint := bp; _v0 := v0 |} ->
  (rc <- readRC self ;;
   b <- ModuleParameter_getValue (Member self F_breakpoint) ;;
   m <- readModule self ;;
   _ <- writeRC self
          (set_v0 (_v0 rc + (v1 - _v0 rc) * d_of_Z 2 * PI * b / sampleRate (_data m))%dbl
             rc) ;;
   rc <- readRC self ;;
   ret (_v0 rc))%synth h
  = Ok ((v0 + (v1 - v0) * d_of_Z 2 * PI * p_data bp / sampleRate (_data m))%dbl,
        set_modules
          (<[self := set_derived
                       (IsRCFilter
                          {| breakpoint := bp;
                             _v0 := (v0 + (v1 - v0) * d_of_Z 2 * PI * p_data bp
                                     / sampleRate (_data m))%dbl |}) m]>
             (modules h)) h).
Proof.
  intros E Ed.
  bind_with (readRC_Ok _ _ _ _ E Ed).
  erewrite bind_Ok
    by (apply getValue_Ok; simpl; rewrite E; unfold member_get; rewrite Ed; reflexivity).
  bind_with (readModule_Ok _ _ _ E).
  bind_with (writeRC_Ok _ _ _ _ E).
  erewrite bind_Ok by (eapply readRC_Ok; [apply modules_insert_eq|reflexivity]).
  reflexivity.
Qed.

(** C5.  An RC filter with an input connected that returns the sample [v1]:
    the breakpoint is pulled again, from its patch if it has one, once (the
    source returns [b], which is stored in the parameter) and else it keeps
    its value [b]; then [_v0] becomes [_v0 + (v1 - _v0) * 2 * PI * b /
    sampleRate] and this new [_v0] is returned.  Neither the input nor the
    patch reaches back into the filter. *)
Theorem RCFilter_getNextSample_step fuel self h m rc inp rest v1 h1 b h2 :
  modules h !! self = Some m -> derived m = IsRCFilter rc ->
  _inputs m = inp :: rest ->
  getNextSample fuel inp h = Ok (v1, h1) ->
  modules h1 !! self = Some m ->
  match p_input (breakpoint rc) with
  | Some src => getNextSample fuel src h1 = Ok (b, h2) /\ modules h2 !! self = Some m
  | None => b = p_data (breakpoint rc) /\ h2 = h1
  end ->
  getNextSample (S fuel) self h
  = Ok ((_v0 rc + (v1 - _v0 rc) * d_of_Z 2 * PI * b / sampleRate (_data m))%dbl,
        set_modules
          (<[self := set_derived
                       (IsRCFilter
                          {| breakpoint := set_p_data b (breakpoint rc);
                             _v0 := (_v0 rc + (v1 - _v0 rc) * d_of_Z 2 * PI * b
                                     / sampleRate (_data m))%dbl |}) m]>
             (modules h2)) h2).
Proof.
  intros E Ed Ei Hpull E1 Hbp.
  destruct rc as [bp v0]. cbn [breakpoint _v0] in *.
  assert (L1 : lookupP (Member self F_breakpoint) h1 = Some bp)
    by (simpl; rewrite E1; unfold member_get; rewrite Ed; reflexivity).
  simpl getNextSample.
  bind_with (readModule_Ok _ _ _ E). rewrite Ed.
  unfold RCFilter_getNextSample.
  bind_with (readModule_Ok _ _ _ E). rewrite Ei.
  bind_with Hpull.
  unfold RCFilter_update.
  destruct (p_input bp) as [src|] eqn:Ebp.
  - destruct Hbp as [Hsrc E2].
    assert (L2 : lookupP (Member self F_breakpoint) h2 = Some bp)
      by (simpl; rewrite E2; unfold member_get; rewrite Ed; reflexivity).
    erewrite bind_Ok.
    2:{ eapply updateValue_patched; [exact L1|exact Ebp|exact Hsrc|exact L2|].
        simpl. rewrite E2. unfold member_set. rewrite Ed. reflexivity. }
    erewrite RCFilter_update_tail
      by (first [apply modules_insert_eq | reflexivity]).
    cbn [_data set_derived p_data set_p_data].
    rewrite set_modules_twice. reflexivity.
  - destruct Hbp as [-> ->].
    bind_with (updateValue_unpatched _ _ _ _ L1 Ebp).
    erewrite RCFilter_update_tail by eassumption.
    rewrite set_p_data_same. reflexivity.
Qed.

End RCFacts.

Lemma RCFilter_getNextSample_step_witness :
  exists h',
    ModularSynth.getNextSample (D := Q) 2%nat 3%nat Examples.store
    = Ok ((inject_Z 1 + (inject_Z 0 - inject_Z 1) * d_of_Z 2 * PI * inject_Z 1000
           / inject_Z 48000)%dbl, h').
Proof.
  eexists.
  eapply (RCFilter_getNextSample_step (D := Q) 1%nat 3%nat Examples.store
            (Examples.module_of (ModularSynth.IsRCFilter Examples.smoother) [0%nat])
            Examples.smoother 0%nat [] (inject_Z 0) _ (inject_Z 1000)).
  - reflexivity.
  - reflexivity.
  - reflexivity.
  - reflexivity.
  - reflexivity.
  - split; reflexivity.
Defined.

(** ** C10: oversampling in [GenericOutput] *)

Section GenericOutputFacts.
Context {D : Type} `{Arith D} {X : Type}.
Import Synth.
Variable declared : (ptr -> M (gmap ptr (@Module D X)) D) -> ptr -> M (gmap ptr (@Module D X)) D.

Implicit Types (h : gmap ptr (@Module D X)) (m : @Module D X).

Lemma Synth_readModule_Ok self h m :
  h !! self = Some m -> readModule self h = Ok (m, h).
Proof. intros E. unfold readModule. now rewrite E. Qed.

(** The loop of [GenericOutput::getNextSample] with [j] rounds to go, over an
    input whose calls return and leave the output module as it is. *)
Lemma GenericOutput_sum_pulls fuel self m inp rest (j : nat) :
  _inputs m = inp :: rest ->
  forall (budget : nat) (i : Z) (sum : D) h xs h',
  i + Z.of_nat j = oversampling (_data m) ->
  (j < budget)%nat ->
  (forall j', (j' <= j)%nat ->
     exists ys hj, pull_times declared fuel inp j' h = Ok (ys, hj) /\
                   hj !! self = Some m) ->
  pull_times declared fuel inp j h = Ok (xs, h') ->
  GenericOutput_sum (getNextSample declared fuel) self budget i sum h
  = Ok (fold_left dadd xs sum, h') /\
  h' !! self = Some m /\ length xs = j.
Proof.
  intros Ei.
  induction j as [|j IH]; intros budget i sum h xs h' Hk Hb Hall Hp.
  - destruct (Hall 0%nat ltac:(lia)) as (ys & h0 & H0 & E).
    simpl in H0, Hp. inversion H0; subst ys h0. inversion Hp; subst xs h'.
    destruct budget as [|budget]; [lia|].
    cbn [GenericOutput_sum].
    bind_with (Synth_readModule_Ok _ _ _ E).
    destruct (i <? oversampling (_data m)) eqn:Hlt;
      [apply Z.ltb_lt in Hlt; lia|].
    auto.
  - destruct (Hall 0%nat ltac:(lia)) as (ys & h0 & H0 & E).
    simpl in H0. inversion H0; subst ys h0.
    cbn [pull_times] in Hp. unfold bind at 1 in Hp.
    destruct (getNextSample declared fuel inp h) as [[x h1]|e|] eqn:Hx;
      try discriminate Hp.
    unfold bind at 1 in Hp.
    destruct (pull_times declared fuel inp j h1) as [[xs' h'']|e|] eqn:Hxs;
      try discriminate Hp.
    inversion Hp; subst xs h''.
    destruct budget as [|budget]; [lia|].
    assert (Hall1 : forall j', (j' <= j)%nat ->
              exists ys hj, pull_times declared fuel inp j' h1 = Ok (ys, hj) /\
                            hj !! self = Some m).
    { intros j' Hj'. destruct (Hall (S j') ltac:(lia)) as (ys & hj & Hj & Ej).
      cbn [pull_times] in Hj. unfold bind at 1 in Hj. rewrite Hx in Hj.
      unfold bind at 1 in Hj.
      destruct (pull_times declared fuel inp j' h1) as [[ys' hj']|e|];
        try discriminate Hj.
      inversion Hj; subst. eauto. }
    destruct (IH budget (i + 1) (sum + x)%dbl h1 xs' h' ltac:(lia) ltac:(lia) Hall1 Hxs)
      as (Hsum & E' & Hlen).
    cbn [GenericOutput_sum].
    bind_with (Synth_readModule_Ok _ _ _ E).
    destruct (i <? oversampling (_data m)) eqn:Hlt;
      [|apply Z.ltb_ge in Hlt; lia].
    rewrite Ei. bind_with Hx.
    rewrite Hsum. simpl. auto.
Qed.

(** C10.  A [GenericOutput] with no input returns 0 and leaves the store as
    it is.  With an input connected and [oversampling = k], [k] at least 1
    (and an [unsigned int]), it calls the input [k] times in a row and no
    more, and returns the mean of the [k] samples: their sum, formed from the
    first to the last, over [k].  The calls of the input return and leave the
    output module as it is. *)
Theorem GenericOutput_getNextSample_mean fuel self h m :
  h !! self = Some m -> derived m = IsGenericOutput ->
  (_inputs m = [] ->
   getNextSample declared (S fuel) self h = Ok (d_of_Z 0, h)) /\
  (forall inp rest k xs h',
     _inputs m = inp :: rest ->
     oversampling (_data m) = k -> 1 <= k < 2 ^ 32 ->
     (forall j, (j <= Z.to_nat k)%nat ->
        exists ys hj, pull_times declared fuel inp j h = Ok (ys, hj) /\
                      hj !! self = Some m) ->
     pull_times declared fuel inp (Z.to_nat k) h = Ok (xs, h') ->
     getNextSample declared (S fuel) self h = Ok (mean xs k, h') /\
     length xs = Z.to_nat k).
Proof.
  intros E Ed.
  assert (Hdispatch :
            getNextSample declared (S fuel) self h
            = GenericOutput_getNextSample (getNextSample declared fuel) self h).
  { cbn [getNextSample].
    bind_with (Synth_readModule_Ok _ _ _ E). now rewrite Ed. }
  rewrite Hdispatch. unfold GenericOutput_getNextSample.
  bind_with (Synth_readModule_Ok _ _ _ E).
  split.
  - intros ->. reflexivity.
  - intros inp rest k xs h' Ei Hk Hrange Hall Hp. rewrite Ei.
    remember (Z.to_nat (2 ^ 32)) as budget eqn:Hbudget.
    destruct (GenericOutput_sum_pulls fuel self m inp rest (Z.to_nat k) Ei
                budget 0 (d_of_Z 0) h xs h')
      as (Hsum & E' & Hlen); [lia| |exact Hall|exact Hp|].
    { subst budget. apply Z2Nat.inj_lt; lia. }
    bind_with Hsum.
    bind_with (Synth_readModule_Ok _ _ _ E').
    rewrite Hk. split; [reflexivity|exact Hlen].
Qed.

End GenericOutputFacts.

Lemma GenericOutput_getNextSample_mean_witness :
  exists h',
    Synth.getNextSample SynthExamples.counter 2%nat 1%nat SynthExamples.store
    = Ok (Synth.mean [inject_Z 1; inject_Z 2; inject_Z 3; inject_Z 4] 4, h') /\
    length [inject_Z 1; inject_Z 2; inject_Z 3; inject_Z 4] = Z.to_nat 4.
Proof.
  eexists.
  eapply (proj2 (GenericOutput_getNextSample_mean SynthExamples.counter 1%nat 1%nat
                   SynthExamples.store SynthExamples.output eq_refl eq_refl)
            0%nat [] 4).
  - reflexivity.
  - reflexivity.
  - lia.
  - intros j Hj.
    assert (Hcases : (j = 0 \/ j = 1 \/ j = 2 \/ j = 3 \/ j = 4)%nat) by lia.
    destruct Hcases as [-> | [-> | [-> | [-> | ->]]]];
      do 2 eexists; split; reflexivity.
  - reflexivity.
Defined.

(** * Further properties of the code *)

(** ** Designing a FIR filter *)

Section FIRDesignFacts.
Context {D : Type} `{Arith D}.
Import ModularSynth.

Implicit Types (h : @heap D) (m : @Module D) (f : @FIRFilter D).

Lemma with_module_same self m h :
  modules h !! self = Some m -> with_module self m h = h.
Proof.
  intros E. destruct h as [ms ps]. unfold with_module, set_modules. simpl in *.
  now rewrite insert_id.
Qed.

Lemma with_module_twice self m m' h :
  with_module self m' (with_module self m h) = with_module self m' h.
Proof. apply set_modules_twice. Qed.

Lemma with_module_lookup self m h : modules (with_module self m h) !! self = Some m.
Proof. apply modules_insert_eq. Qed.

Lemma with_module_lookup_ne self a m h :
  a <> self -> modules (with_module self m h) !! a = modules h !! a.
Proof. intros Hne. simpl. now rewrite lookup_insert_ne. Qed.

Lemma set_inputSamples_same f : set_inputSamples (_inputSamples f) f = f.
Proof. now destruct f. Qed.

(** The first loop of [setCutoff], with the store it leaves. *)
Lemma for_each_push_coefficient_store self omega (l : list Z) :
  forall h m f,
  modules h !! self = Some m -> derived m = IsFIRFilter f ->
  for_each l (FIRFilter_push_coefficient self omega) h
  = Ok (tt, with_module self
              (set_derived
                 (IsFIRFilter
                    (set_coefficients
                       (_coefficients f ++ map (fun i => FIRFilter_calcH i omega) l) f)) m)
              h).
Proof.
  induction l as [|i l IH]; intros h m f E Ed.
  - simpl. rewrite app_nil_r, set_coefficients_same, (set_derived_same _ _ Ed).
    now rewrite (with_module_same _ _ _ E).
  - assert (Hpush : FIRFilter_push_coefficient self omega i h
                    = Ok (tt, with_module self
                                (set_derived
                                   (IsFIRFilter
                                      (set_coefficients
                                         (_coefficients f ++ [FIRFilter_calcH i omega]) f)) m)
                                h)).
    { unfold FIRFilter_push_coefficient.
      bind_with (readFIR_Ok _ _ _ _ E Ed).
      apply (writeFIR_Ok _ _ _ _ E). }
    change (for_each (i :: l) (FIRFilter_push_coefficient self omega))
      with (bind (FIRFilter_push_coefficient self omega i)
              (fun _ => for_each l (FIRFilter_push_coefficient self omega))).
    bind_with Hpush.
    rewrite (IH _ (set_derived
                     (IsFIRFilter
                        (set_coefficients
                           (_coefficients f ++ [FIRFilter_calcH i omega]) f)) m)
               (set_coefficients (_coefficients f ++ [FIRFilter_calcH i omega]) f)
               (with_module_lookup self _ h) eq_refl).
    rewrite with_module_twice. simpl. now rewrite <- app_assoc.
Qed.

Lemma int_range_length lo hi :
  Z.of_nat (length (int_range lo hi)) = Z.max 0 (hi - lo + 1).
Proof. unfold int_range. rewrite length_map, length_seq. lia. Qed.

Lemma int_range_lookup lo hi k :
  0 <= k < hi - lo + 1 -> int_range lo hi !! Z.to_nat k = Some (lo + k).
Proof.
  intros Hk. unfold int_range.
  rewrite list_lookup_fmap, lookup_seq_lt by lia.
  simpl. f_equal. lia.
Qed.

(** [setCutoff] on a filter that is not [USER_DEFINED] and whose type field is
    [LOW_PASS]: the coefficients it had are replaced by the kernel. *)
Lemma FIRFilter_setCutoff_LOW_PASS cutoff self h m f :
  modules h !! self = Some m -> derived m = IsFIRFilter f ->
  _filterType f = LOW_PASS ->
  FIRFilter_setCutoff cutoff self h
  = Ok (tt, with_module self
              (set_derived
                 (IsFIRFilter
                    (set_coefficients
                       (low_pass_kernel (_coefCount f)
                          (PI * cutoff / (sampleRate (_data m) / d_of_Z 2))%dbl) f)) m)
              h).
Proof.
  intros E Ed Hty. unfold FIRFilter_setCutoff.
  bind_with (readFIR_Ok _ _ _ _ E Ed). rewrite Hty. cbv iota.
  bind_with (readModule_Ok _ _ _ E).
  bind_with (writeFIR_Ok _ _ _ _ E).
  erewrite bind_Ok.
  2:{ apply (for_each_push_coefficient_store self _ _ _
               (set_derived (IsFIRFilter (set_coefficients [] f)) m)
               (set_coefficients [] f)).
      - apply modules_insert_eq.
      - reflexivity. }
  erewrite bind_Ok
    by (eapply readFIR_Ok; [apply with_module_lookup|reflexivity]).
  cbn [_filterType set_coefficients]. rewrite Hty. cbv iota.
  unfold ret, with_module. rewrite set_modules_twice. reflexivity.
Qed.

(** X1.  [setCutoff] on a filter whose type field is [LOW_PASS] replaces the
    coefficients by [max(0, 2 * (n / 2) + 1)] numbers, [n] being [_coefCount]
    and the division that of [int]: the one at index [k] is [_calcH(k - n/2,
    omega)], so that the middle one is [omega / PI].  Nothing else in the
    store changes. *)
Theorem FIRFilter_setCutoff_kernel cutoff self h m f :
  modules h !! self = Some m -> derived m = IsFIRFilter f ->
  _filterType f = LOW_PASS ->
  exists kernel,
    FIRFilter_setCutoff cutoff self h
    = Ok (tt, with_module self
                (set_derived (IsFIRFilter (set_coefficients kernel f)) m) h) /\
    Z.of_nat (length kernel) = Z.max 0 (2 * Z.quot (_coefCount f) 2 + 1) /\
    (forall k, 0 <= k < 2 * Z.quot (_coefCount f) 2 + 1 ->
       kernel !! Z.to_nat k
       = Some (FIRFilter_calcH (k - Z.quot (_coefCount f) 2)
                 (PI * cutoff / (sampleRate (_data m) / d_of_Z 2))%dbl)).
Proof.
  intros E Ed Hty.
  exists (low_pass_kernel (_coefCount f)
            (PI * cutoff / (sampleRate (_data m) / d_of_Z 2))%dbl).
  split; [exact (FIRFilter_setCutoff_LOW_PASS _ _ _ _ _ E Ed Hty)|].
  unfold low_pass_kernel. rewrite Z.quot_opp_l by lia.
  split.
  - rewrite length_map, int_range_length. lia.
  - intros k Hk. rewrite list_lookup_fmap, int_range_lookup by lia.
    simpl. do 2 f_equal. lia.
Qed.

(** [setup(std::vector<double>)] for a vector whose size fits in an [int]. *)
Lemma FIRFilter_setup_coefficients_Ok coefficients self h m f :
  modules h !! self = Some m -> derived m = IsFIRFilter f ->
  Z.of_nat (length coefficients) <= INT_MAX ->
  FIRFilter_setup_coefficients coefficients self h
  = Ok (tt, with_module self
              (set_derived
                 (IsFIRFilter
                    {| _filterType := USER_DEFINED;
                       _coefCount := Z.of_nat (length coefficients);
                       _coefficients := coefficients;
                       _inputSamples := repeat (d_of_Z 0) (length coefficients) |}) m)
              h).
Proof.
  intros E Ed Hlen. unfold FIRFilter_setup_coefficients.
  rewrite to_int_small by (unfold INT_MAX in *; lia).
  bind_with (readFIR_Ok _ _ _ _ E Ed).
  bind_with (writeFIR_Ok _ _ _ _ E).
  erewrite bind_Ok by (eapply readFIR_Ok; [apply modules_insert_eq|reflexivity]).
  erewrite bind_Ok by (apply writeFIR_Ok, modules_insert_eq).
  rewrite set_modules_twice.
  erewrite bind_Ok by (eapply readFIR_Ok; [apply modules_insert_eq|reflexivity]).
  erewrite bind_Ok by (apply writeFIR_Ok, modules_insert_eq).
  rewrite set_modules_twice.
  erewrite bind_Ok by (eapply readFIR_Ok; [apply modules_insert_eq|reflexivity]).
  unfold deque_assign. cbn [_coefCount set_coefCount].
  destruct (Z.of_nat (length coefficients) <? 0) eqn:Hneg;
    [apply Z.ltb_lt in Hneg; lia|].
  unfold ret at 1. unfold bind at 1.
  erewrite writeFIR_Ok by apply modules_insert_eq.
  rewrite set_modules_twice, Nat2Z.id. reflexivity.
Qed.

(** X2.  [setup(coefficients)] with a vector whose size fits in an [int] makes
    the filter [USER_DEFINED] with those coefficients, their number as
    [_coefCount] and as many zeros of history; after it [setCutoff], whatever
    the cutoff, returns with the store unchanged, so that the coefficients
    the user gave stay. *)
Theorem FIRFilter_setup_coefficients_keeps coefficients self h m f :
  modules h !! self = Some m -> derived m = IsFIRFilter f ->
  Z.of_nat (length coefficients) <= INT_MAX ->
  exists h1,
    FIRFilter_setup_coefficients coefficients self h = Ok (tt, h1) /\
    readFIR self h1
    = Ok ({| _filterType := USER_DEFINED;
             _coefCount := Z.of_nat (length coefficients);
             _coefficients := coefficients;
             _inputSamples := repeat (d_of_Z 0) (length coefficients) |}, h1) /\
    (forall a, a <> self -> modules h1 !! a = modules h !! a) /\
    (forall cutoff, FIRFilter_setCutoff cutoff self h1 = Ok (tt, h1)).
Proof.
  intros E Ed Hlen. eexists.
  split; [exact (FIRFilter_setup_coefficients_Ok _ _ _ _ _ E Ed Hlen)|].
  assert (R : forall f', readFIR self (with_module self (set_derived (IsFIRFilter f') m) h)
                         = Ok (f', with_module self (set_derived (IsFIRFilter f') m) h))
    by (intros f'; eapply readFIR_Ok; [apply with_module_lookup|reflexivity]).
  split; [apply R|split].
  - intros a Hne. now apply with_module_lookup_ne.
  - intros cutoff. unfold FIRFilter_setCutoff. rewrite (bind_Ok _ _ _ _ _ (R _)).
    reflexivity.
Qed.

(** X3.  [setup(filterType, coefficientCount)] followed by [setCutoff], on a
    filter whose type field is [LOW_PASS] and for a count that fits in an
    [int], leaves a filter that is consistent: with [N] the count rounded up
    to odd, [_coefCount] is [N], there are [N] coefficients and the history is
    [N] zeros.  The other modules are as they were. *)
Theorem FIRFilter_designed_is_consistent filterType coefficientCount cutoff self h m f :
  is_uint coefficientCount -> coefficientCount <= INT_MAX ->
  modules h !! self = Some m -> derived m = IsFIRFilter f ->
  _filterType f = LOW_PASS ->
  exists h1 h2 f2,
    FIRFilter_setup filterType coefficientCount self h = Ok (tt, h1) /\
    FIRFilter_setCutoff cutoff self h1 = Ok (tt, h2) /\
    readFIR self h2 = Ok (f2, h2) /\
    _coefCount f2 = odd_count coefficientCount /\
    Z.of_nat (length (_coefficients f2)) = odd_count coefficientCount /\
    _inputSamples f2 = repeat (d_of_Z 0) (Z.to_nat (odd_count coefficientCount)) /\
    (forall a, a <> self -> modules h2 !! a = modules h !! a).
Proof.
  intros Hu Hmax E Ed Hty.
  destruct (odd_count_range _ Hu Hmax) as [Hrange Hodd].
  set (n := odd_count coefficientCount) in *.
  pose proof (FIRFilter_setup_in_range filterType coefficientCount self h m f Hu Hmax E Ed)
    as Hsetup.
  fold n in Hsetup.
  set (f1 := {| _filterType := _filterType f; _coefCount := n;
                _coefficients := _coefficients f;
                _inputSamples := repeat (d_of_Z 0) (Z.to_nat n) |}) in *.
  pose proof (FIRFilter_setCutoff_LOW_PASS cutoff self _ _ f1
                (modules_insert_eq self (set_derived (IsFIRFilter f1) m) h) eq_refl Hty)
    as Hcut.
  do 3 eexists.
  split; [exact Hsetup|]. split; [exact Hcut|].
  split; [eapply readFIR_Ok; [apply with_module_lookup|reflexivity]|].
  cbn [_coefCount _coefficients _inputSamples set_coefficients f1].
  split; [reflexivity|]. split; [|split; [reflexivity|]].
  - unfold low_pass_kernel. rewrite length_map, int_range_length.
    rewrite Z.quot_opp_l by lia. rewrite Z.quot_div_nonneg by lia.
    rewrite Zodd_mod in Hodd. apply Z.eqb_eq in Hodd.
    pose proof (Z.div_mod n 2 ltac:(lia)). lia.
  - intros a Hne. rewrite with_module_lookup_ne by exact Hne.
    simpl. now rewrite lookup_insert_ne.
Qed.

End FIRDesignFacts.

Lemma FIRFilter_setCutoff_kernel_witness :
  exists kernel,
    ModularSynth.FIRFilter_setCutoff (D := Q) (inject_Z 1000) 1%nat Examples.bench
    = Ok (tt, ModularSynth.with_module 1%nat
                (ModularSynth.set_derived
                   (ModularSynth.IsFIRFilter
                      (ModularSynth.set_coefficients kernel Examples.undesigned))
                   (Examples.module_of (ModularSynth.IsFIRFilter Examples.undesigned)
                      [0%nat]))
                Examples.bench) /\
    Z.of_nat (length kernel) = Z.max 0 (2 * Z.quot 3 2 + 1) /\
    (forall k, 0 <= k < 2 * Z.quot 3 2 + 1 ->
       kernel !! Z.to_nat k
       = Some (ModularSynth.FIRFilter_calcH (k - Z.quot 3 2)
                 (PI * inject_Z 1000 / (inject_Z 48000 / d_of_Z 2))%dbl)).
Proof.
  exact (FIRFilter_setCutoff_kernel (D := Q) (inject_Z 1000) 1%nat Examples.bench
           (Examples.module_of (ModularSynth.IsFIRFilter Examples.undesigned) [0%nat])
           Examples.undesigned eq_refl eq_refl eq_refl).
Defined.

Lemma FIRFilter_setup_coefficients_keeps_witness :
  exists h1,
    ModularSynth.FIRFilter_setup_coefficients (D := Q)
      [inject_Z 1; inject_Z 2; inject_Z 3] 4%nat Examples.store = Ok (tt, h1) /\
    ModularSynth.readFIR 4%nat h1 = Ok (Examples.fresh_taps, h1) /\
    (forall a, a <> 4%nat ->
               ModularSynth.modules h1 !! a = ModularSynth.modules Examples.store !! a) /\
    (forall cutoff, ModularSynth.FIRFilter_setCutoff cutoff 4%nat h1 = Ok (tt, h1)).
Proof.
  exact (FIRFilter_setup_coefficients_keeps (D := Q)
           [inject_Z 1; inject_Z 2; inject_Z 3] 4%nat Examples.store
           (Examples.module_of (ModularSynth.IsFIRFilter ModularSynth.FIRFilter_new) [])
           ModularSynth.FIRFilter_new eq_refl eq_refl ltac:(unfold INT_MAX; simpl; lia)).
Defined.

Lemma FIRFilter_designed_is_consistent_witness :
  exists h1 h2 f2,
    ModularSynth.FIRFilter_setup (D := Q) ModularSynth.HIGH_PASS 4 4%nat Examples.store
    = Ok (tt, h1) /\
    ModularSynth.FIRFilter_setCutoff (inject_Z 1000) 4%nat h1 = Ok (tt, h2) /\
    ModularSynth.readFIR 4%nat h2 = Ok (f2, h2) /\
    ModularSynth._coefCount f2 = 5 /\
    Z.of_nat (length (ModularSynth._coefficients f2)) = 5 /\
    ModularSynth._inputSamples f2 = repeat (inject_Z 0) 5 /\
    (forall a, a <> 4%nat ->
               ModularSynth.modules h2 !! a = ModularSynth.modules Examples.store !! a).
Proof.
  exact (FIRFilter_designed_is_consistent (D := Q) ModularSynth.HIGH_PASS 4
           (inject_Z 1000) 4%nat Examples.store
           (Examples.module_of (ModularSynth.IsFIRFilter ModularSynth.FIRFilter_new) [])
           ModularSynth.FIRFilter_new
           ltac:(unfold is_uint; lia) ltac:(unfold INT_MAX; lia)
           eq_refl eq_refl eq_refl).
Defined.

(** ** Running a FIR filter *)

Section FIRRunFacts.
Context {D : Type} `{Arith D}.
Import ModularSynth.

Implicit Types (h : @heap D) (m : @Module D) (f : @FIRFilter D).

(** One call of [getNextSample] on a FIR filter with a sample of history to
    drop and an input that returns [x]: what is left is the loop over the
    coefficients. *)
Lemma FIRFilter_getNextSample_pulled fuel self h m f inp rest oldest hist x h1 :
  modules h !! self = Some m -> derived m = IsFIRFilter f ->
  _inputs m = inp :: rest ->
  _inputSamples f = oldest :: hist ->
  getNextSample fuel inp
    (with_module self (set_derived (IsFIRFilter (set_inputSamples hist f)) m) h)
  = Ok (x, h1) ->
  modules h1 !! self = Some (set_derived (IsFIRFilter (set_inputSamples hist f)) m) ->
  getNextSample (S fuel) self h
  = match FIRFilter_convolve (hist ++ [x]) (_coefficients f) 0
            (Z.to_nat (_coefCount f)) (d_of_Z 0) with
    | Ok y =>
        Ok (y, with_module self
                 (set_derived (IsFIRFilter (set_inputSamples (hist ++ [x]) f)) m) h1)
    | Fault e => Fault e
    | OutOfFuel => OutOfFuel
    end.
Proof.
  intros E Ed Ei Eh Hpull E1.
  simpl getNextSample.
  bind_with (readModule_Ok _ _ _ E). rewrite Ed.
  unfold FIRFilter_getNextSample.
  bind_with (readFIR_Ok _ _ _ _ E Ed). rewrite Eh.
  bind_with (writeFIR_Ok _ _ _ _ E).
  erewrite bind_Ok by (apply readModule_Ok, modules_insert_eq).
  cbn [_inputs set_derived]. rewrite Ei.
  unfold with_module in Hpull.
  replace (set_derived
             (IsFIRFilter
                {| _filterType := _filterType f; _coefCount := _coefCount f;
                   _coefficients := _coefficients f; _inputSamples := hist |}) m)
    with (set_derived (IsFIRFilter (set_inputSamples hist f)) m) by reflexivity.
  bind_with Hpull.
  bind_with (readFIR_Ok _ _ _ _ E1 eq_refl).
  bind_with (writeFIR_Ok _ _ _ _ E1).
  erewrite bind_Ok by (eapply readFIR_Ok; [apply modules_insert_eq|reflexivity]).
  reflexivity.
Qed.

(** The loop over the coefficients reads past the end of a vector as soon as
    one of them is shorter than the count. *)
Lemma FIRFilter_convolve_short (samples coefs : list D) (n : nat) :
  forall (i : nat) (y : D),
  (i <= length coefs)%nat -> (length coefs < i + n)%nat ->
  FIRFilter_convolve samples coefs i n y = Fault OutOfRange.
Proof.
  induction n as [|n IH]; intros i y Hi Hn; [lia|].
  simpl. destruct (samples !! i) as [s|]; [|reflexivity].
  destruct (coefs !! i) as [c|] eqn:Ec; [|reflexivity].
  apply lookup_lt_Some in Ec. apply IH; lia.
Qed.

(** X4.  A FIR filter that holds fewer coefficients than [_coefCount], as
    after [setup(filterType, n)] with no call of [setCutoff]: with a sample of
    history and an input that returns, [getNextSample] reads
    [_coefficients[i]] past the end of the vector. *)
Theorem FIRFilter_getNextSample_undesigned fuel self h m f inp rest oldest hist x h1 :
  modules h !! self = Some m -> derived m = IsFIRFilter f ->
  _inputs m = inp :: rest ->
  _inputSamples f = oldest :: hist ->
  Z.of_nat (length (_coefficients f)) < _coefCount f ->
  getNextSample fuel inp
    (with_module self (set_derived (IsFIRFilter (set_inputSamples hist f)) m) h)
  = Ok (x, h1) ->
  modules h1 !! self = Some (set_derived (IsFIRFilter (set_inputSamples hist f)) m) ->
  getNextSample (S fuel) self h = Fault OutOfRange.
Proof.
  intros E Ed Ei Eh Hshort Hpull E1.
  rewrite (FIRFilter_getNextSample_pulled _ _ _ _ _ _ _ _ _ _ _ E Ed Ei Eh Hpull E1).
  rewrite FIRFilter_convolve_short by lia. reflexivity.
Qed.

(** X5.  [setup(coefficients)] with an empty vector returns, and leaves a
    filter on which every [getNextSample] faults on [pop_front()] of the empty
    history, an input being connected or not. *)
Theorem FIRFilter_setup_no_coefficients self h m f :
  modules h !! self = Some m -> derived m = IsFIRFilter f ->
  exists h1,
    FIRFilter_setup_coefficients [] self h = Ok (tt, h1) /\
    (forall fuel, getNextSample (S fuel) self h1 = Fault EmptyContainer).
Proof.
  intros E Ed. eexists.
  split.
  - exact (FIRFilter_setup_coefficients_Ok [] _ _ _ _ E Ed
             ltac:(unfold INT_MAX; simpl; lia)).
  - intros fuel. simpl getNextSample.
    erewrite bind_Ok by (apply readModule_Ok, with_module_lookup).
    cbn [derived set_derived]. unfold FIRFilter_getNextSample.
    erewrite bind_Ok by (eapply readFIR_Ok; [apply with_module_lookup|reflexivity]).
    reflexivity.
Qed.

Lemma snoc_not_nil (l : list D) (x : D) : l ++ [x] <> [].
Proof. destruct l; discriminate. Qed.

Lemma FIR_history_drop (hist xs : list D) :
  hist <> [] -> FIR_history hist xs = drop (length xs) (hist ++ xs).
Proof.
  revert hist. induction xs as [|x xs IH]; intros hist Hne; simpl.
  - now rewrite app_nil_r.
  - rewrite IH by apply snoc_not_nil.
    destruct hist as [|a hist]; [congruence|].
    simpl. now rewrite <- app_assoc.
Qed.

Lemma FIR_response_windows (coefs hist xs : list D) :
  hist <> [] ->
  FIR_response coefs hist xs
  = map (fun j => dot_product (drop (S j) (hist ++ take (S j) xs)) coefs)
      (seq 0 (length xs)).
Proof.
  revert hist. induction xs as [|x xs IH]; intros hist Hne; [reflexivity|].
  destruct hist as [|a hist]; [congruence|].
  cbn [FIR_response tail length seq map].
  rewrite IH by apply snoc_not_nil.
  f_equal. rewrite <- seq_shift, map_map.
  apply map_ext. intros j. simpl. now rewrite <- app_assoc.
Qed.

Lemma FIR_history_length (hist xs : list D) :
  hist <> [] -> length (FIR_history hist xs) = length hist.
Proof.
  revert hist. induction xs as [|x xs IH]; intros hist Hne; [reflexivity|].
  simpl. rewrite IH by apply snoc_not_nil.
  destruct hist; [congruence|]. rewrite length_app. simpl. lia.
Qed.

(** A run of calls of a FIR filter whose input feeds it the samples [xs]. *)
Lemma FIRFilter_run fuel self inp rest m f :
  _inputs m = inp :: rest ->
  forall h xs h',
  feeds fuel self inp h xs h' ->
  forall hist,
  hist <> [] ->
  _coefCount f = Z.of_nat (length hist) ->
  length (_coefficients f) = length hist ->
  getNextSample_times (S fuel) self (length xs)
    (with_module self (set_derived (IsFIRFilter (set_inputSamples hist f)) m) h)
  = Ok (FIR_response (_coefficients f) hist xs,
        with_module self
          (set_derived (IsFIRFilter (set_inputSamples (FIR_history hist xs) f)) m) h').
Proof.
  intros Ei h xs h' Hfeeds.
  induction Hfeeds as [h|h x h1 xs h' Hpull Hfeeds IH]; intros hist Hne Hc Hl.
  - reflexivity.
  - destruct hist as [|oldest hist']; [congruence|].
    cbn [length getNextSample_times FIR_response FIR_history tail].
    erewrite bind_Ok.
    2:{ erewrite (FIRFilter_getNextSample_pulled fuel self _
                    (set_derived (IsFIRFilter (set_inputSamples (oldest :: hist') f)) m)
                    (set_inputSamples (oldest :: hist') f) inp rest oldest hist' x
                    (with_module self
                       (set_derived (IsFIRFilter (set_inputSamples hist' f)) m) h1)).
        - cbn [_coefficients _coefCount set_inputSamples].
          rewrite Hc, Nat2Z.id.
          rewrite FIRFilter_convolve_sum
            by (rewrite ?length_app; simpl in *; lia).
          reflexivity.
        - apply with_module_lookup.
        - reflexivity.
        - exact Ei.
        - reflexivity.
        - rewrite with_module_twice. apply Hpull.
        - apply with_module_lookup. }
    rewrite with_module_twice.
    assert (Hlen' : length (hist' ++ [x]) = length (oldest :: hist'))
      by (rewrite length_app; simpl; lia).
    erewrite bind_Ok.
    2:{ apply (IH (hist' ++ [x])).
        - apply snoc_not_nil.
        - now rewrite Hlen'.
        - now rewrite Hlen'. }
    reflexivity.
Qed.

(** X6.  A FIR filter with [N] coefficients and [N] samples of history, [N] at
    least one, whose input feeds it the samples [xs]: as many calls of
    [getNextSample] return, the call number [j] giving the dot product of the
    coefficients with the last [N] samples of the old history followed by
    [xs[0..j]]; the history is then the last [N] samples of the old history
    followed by [xs]. *)
Theorem FIRFilter_sliding_window fuel self h m f inp rest xs h' :
  modules h !! self = Some m -> derived m = IsFIRFilter f ->
  _inputs m = inp :: rest ->
  _inputSamples f <> [] ->
  _coefCount f = Z.of_nat (length (_inputSamples f)) ->
  length (_coefficients f) = length (_inputSamples f) ->
  feeds fuel self inp h xs h' ->
  getNextSample_times (S fuel) self (length xs) h
  = Ok (map (fun j =>
               dot_product (drop (S j) (_inputSamples f ++ take (S j) xs))
                 (_coefficients f))
          (seq 0 (length xs)),
        with_module self
          (set_derived
             (IsFIRFilter
                (set_inputSamples (drop (length xs) (_inputSamples f ++ xs)) f)) m) h') /\
  length (drop (length xs) (_inputSamples f ++ xs)) = length (_inputSamples f).
Proof.
  intros E Ed Ei Hne Hc Hl Hfeeds.
  pose proof (FIRFilter_run fuel self inp rest m f Ei h xs h' Hfeeds
                (_inputSamples f) Hne Hc Hl) as Hrun.
  rewrite set_inputSamples_same, (set_derived_same _ _ Ed),
    (with_module_same _ _ _ E) in Hrun.
  rewrite <- FIR_history_drop, <- FIR_response_windows by exact Hne.
  split; [exact Hrun|now apply FIR_history_length].
Qed.

End FIRRunFacts.

Lemma FIRFilter_getNextSample_undesigned_witness :
  ModularSynth.getNextSample (D := Q) 2%nat 1%nat Examples.bench = Fault OutOfRange.
Proof.
  eapply (FIRFilter_getNextSample_undesigned (D := Q) 1%nat 1%nat Examples.bench
            (Examples.module_of (ModularSynth.IsFIRFilter Examples.undesigned) [0%nat])
            Examples.undesigned 0%nat [] (inject_Z 0) [inject_Z 0; inject_Z 0]
            (inject_Z 0));
    reflexivity.
Defined.

Lemma FIRFilter_setup_no_coefficients_witness :
  exists h1,
    ModularSynth.FIRFilter_setup_coefficients (D := Q) [] 1%nat Examples.store
    = Ok (tt, h1) /\
    (forall fuel, ModularSynth.getNextSample (S fuel) 1%nat h1 = Fault EmptyContainer).
Proof.
  exact (FIRFilter_setup_no_coefficients (D := Q) 1%nat Examples.store
           (Examples.module_of (ModularSynth.IsFIRFilter Examples.three_taps) [0%nat])
           Examples.three_taps eq_refl eq_refl).
Defined.

(** ** Running a [TrivialGenerator] *)

Section GeneratorFacts.
Context {D : Type} `{Arith D}.
Import ModularSynth.

Implicit Types (h : @heap D) (m : @Module D) (vp sp : @ModuleParameter D).

Lemma with_module_commute a b (x y : @Module D) h :
  a <> b -> with_module a x (with_module b y h) = with_module b y (with_module a x h).
Proof.
  intros Hne. unfold with_module, set_modules. simpl.
  now rewrite insert_insert_ne.
Qed.

Lemma ramp_value_shift (v s : D) (k : nat) :
  ramp_value (v + s)%dbl s k = ramp_value v s (S k).
Proof. induction k as [|k IH]; [reflexivity|]. simpl. now rewrite IH. Qed.

(** The samples of the first [k] calls of a generator that starts at [v]. *)
Lemma ramp_samples_cons (v s : D) (k : nat) :
  map (fun j => (ramp_value v s (S j) - s)%dbl) (seq 0 (S k))
  = (v + s - s)%dbl :: map (fun j => (ramp_value (v + s)%dbl s (S j) - s)%dbl) (seq 0 k).
Proof.
  cbn [seq map ramp_value]. f_equal.
  rewrite <- seq_shift, map_map. apply map_ext. intros j.
  now rewrite ramp_value_shift.
Qed.

(** One call on a generator whose [value] is not patched, with its value
    written apart. *)
Lemma TrivialGenerator_step fuel g h m vp sp v :
  derived m = IsTrivialGenerator {| value := vp; step := sp |} ->
  p_input vp = None ->
  getNextSample (S fuel) g
    (with_module g
       (set_derived (IsTrivialGenerator {| value := set_p_data v vp; step := sp |}) m) h)
  = Ok ((v + p_data sp - p_data sp)%dbl,
        with_module g
          (set_derived
             (IsTrivialGenerator
                {| value := set_p_data (v + p_data sp)%dbl vp; step := sp |}) m) h).
Proof.
  intros Ed Ei.
  erewrite TrivialGenerator_getNextSample_unpatched.
  2:{ apply with_module_lookup. }
  2:{ reflexivity. }
  2:{ exact Ei. }
  unfold with_module. rewrite set_modules_twice. reflexivity.
Qed.

Lemma TrivialGenerator_run fuel g h m vp sp (k : nat) :
  derived m = IsTrivialGenerator {| value := vp; step := sp |} ->
  p_input vp = None ->
  forall v,
  getNextSample_times (S fuel) g k
    (with_module g
       (set_derived (IsTrivialGenerator {| value := set_p_data v vp; step := sp |}) m) h)
  = Ok (map (fun j => (ramp_value v (p_data sp) (S j) - p_data sp)%dbl) (seq 0 k),
        with_module g
          (set_derived
             (IsTrivialGenerator
                {| value := set_p_data (ramp_value v (p_data sp) k) vp; step := sp |}) m)
          h).
Proof.
  intros Ed Ei. induction k as [|k IH]; intros v; [reflexivity|].
  rewrite ramp_samples_cons. cbn [getNextSample_times].
  bind_with (TrivialGenerator_step fuel g h m vp sp v Ed Ei).
  bind_with (IH (v + p_data sp)%dbl).
  rewrite ramp_value_shift. reflexivity.
Qed.

Lemma TrivialGenerator_state_same m vp sp :
  derived m = IsTrivialGenerator {| value := vp; step := sp |} ->
  set_derived
    (IsTrivialGenerator {| value := set_p_data (p_data vp) vp; step := sp |}) m = m.
Proof. intros Ed. rewrite set_p_data_same. now apply set_derived_same. Qed.

(** X7.  A [TrivialGenerator] whose [value] is not patched: [k] calls of
    [getNextSample] return; [value] ends as its start with [step] added [k]
    times, and the call number [j] returns the value after [j + 1] additions
    less [step].  Nothing else in the store changes: in particular a module
    patched into [step] is never called. *)
Theorem TrivialGenerator_ramp fuel g h m vp sp (k : nat) :
  modules h !! g = Some m ->
  derived m = IsTrivialGenerator {| value := vp; step := sp |} ->
  p_input vp = None ->
  getNextSample_times (S fuel) g k h
  = Ok (map (fun j => (ramp_value (p_data vp) (p_data sp) (S j) - p_data sp)%dbl)
          (seq 0 k),
        with_module g
          (set_derived
             (IsTrivialGenerator
                {| value := set_p_data (ramp_value (p_data vp) (p_data sp) k) vp;
                   step := sp |}) m) h).
Proof.
  intros E Ed Ei.
  pose proof (TrivialGenerator_run fuel g h m vp sp k Ed Ei (p_data vp)) as Hrun.
  now rewrite (TrivialGenerator_state_same _ _ _ Ed), (with_module_same _ _ _ E) in Hrun.
Qed.

(** A generator whose [value] is not patched feeds its ramp to any other
    module. *)
Lemma feeds_ramp fuel self g m vp sp (k : nat) :
  g <> self ->
  derived m = IsTrivialGenerator {| value := vp; step := sp |} ->
  p_input vp = None ->
  forall v h,
  feeds (S fuel) self g
    (with_module g
       (set_derived (IsTrivialGenerator {| value := set_p_data v vp; step := sp |}) m) h)
    (map (fun j => (ramp_value v (p_data sp) (S j) - p_data sp)%dbl) (seq 0 k))
    (with_module g
       (set_derived
          (IsTrivialGenerator
             {| value := set_p_data (ramp_value v (p_data sp) k) vp; step := sp |}) m) h).
Proof.
  intros Hne Ed Ei. induction k as [|k IH]; intros v h; [apply feeds_nil|].
  rewrite ramp_samples_cons.
  eapply feeds_cons.
  - intros m'.
    rewrite (with_module_commute self g) by congruence.
    rewrite (TrivialGenerator_step fuel g _ m vp sp v Ed Ei).
    now rewrite (with_module_commute g self) by congruence.
  - rewrite <- ramp_value_shift. apply IH.
Qed.

(** X8.  A [TrivialGenerator] whose [value] is patched follows the patch: one
    call pulls the source once, and with [x] the sample of the source,
    [value] becomes [x + step] and the call returns [x + step - step];
    whatever [value] held is lost.  The source does not write the generator. *)
Theorem TrivialGenerator_follows_patch fuel g h m vp sp src x h1 :
  modules h !! g = Some m ->
  derived m = IsTrivialGenerator {| value := vp; step := sp |} ->
  p_input vp = Some src ->
  getNextSample fuel src h = Ok (x, h1) ->
  modules h1 !! g = Some m ->
  getNextSample (S fuel) g h
  = Ok ((x + p_data sp - p_data sp)%dbl,
        with_module g
          (set_derived
             (IsTrivialGenerator
                {| value := set_p_data (x + p_data sp)%dbl vp; step := sp |}) m) h1).
Proof.
  intros E Ed Ei Hsrc E1.
  assert (Lv : lookupP (Member g F_value) h = Some vp)
    by (simpl; rewrite E; unfold member_get; now rewrite Ed).
  assert (Lv1 : lookupP (Member g F_value) h1 = Some vp)
    by (simpl; rewrite E1; unfold member_get; now rewrite Ed).
  set (m2 := set_derived
               (IsTrivialGenerator {| value := set_p_data x vp; step := sp |}) m).
  assert (Hup : ModuleParameter_updateValue (getNextSample fuel) (Member g F_value) h
                = Ok (tt, with_module g m2 h1)).
  { eapply updateValue_patched; [exact Lv|exact Ei|exact Hsrc|exact Lv1|].
    simpl. rewrite E1. unfold member_set. rewrite Ed. reflexivity. }
  simpl getNextSample. bind_with (readModule_Ok _ _ _ E). rewrite Ed.
  unfold TrivialGenerator_getNextSample.
  bind_with Hup.
  assert (L2v : lookupP (Member g F_value) (with_module g m2 h1) = Some (set_p_data x vp))
    by (simpl; rewrite lookup_insert_eq; reflexivity).
  assert (L2s : lookupP (Member g F_step) (with_module g m2 h1) = Some sp)
    by (simpl; rewrite lookup_insert_eq; reflexivity).
  bind_with (getValue_Ok _ _ _ L2v).
  bind_with (getValue_Ok _ _ _ L2s).
  bind_with (readP_Ok _ _ _ L2v).
  erewrite bind_Ok
    by (apply writeP_Ok; simpl; rewrite lookup_insert_eq; reflexivity).
  erewrite bind_Ok
    by (apply getValue_Ok; simpl; rewrite lookup_insert_eq; reflexivity).
  erewrite bind_Ok
    by (apply getValue_Ok; simpl; rewrite lookup_insert_eq; reflexivity).
  unfold ret, with_module. simpl. rewrite insert_insert_eq. reflexivity.
Qed.

End GeneratorFacts.

Lemma TrivialGenerator_ramp_witness :
  ModularSynth.getNextSample_times (D := Q) 1%nat 4%nat 3%nat Examples.bench
  = Ok ([inject_Z 5; inject_Z 7; inject_Z 9],
        ModularSynth.with_module 4%nat
          (Examples.module_of
             (ModularSynth.IsTrivialGenerator
                {| ModularSynth.value := ModularSynth.ModuleParameter_new (inject_Z 11);
                   ModularSynth.step := ModularSynth.step Examples.stepper |}) [])
          Examples.bench).
Proof.
  exact (TrivialGenerator_ramp (D := Q) 0%nat 4%nat Examples.bench
           (Examples.module_of (ModularSynth.IsTrivialGenerator Examples.stepper) [])
           (ModularSynth.value Examples.stepper) (ModularSynth.step Examples.stepper)
           3%nat eq_refl eq_refl eq_refl).
Defined.

Lemma TrivialGenerator_follows_patch_witness :
  exists h',
    ModularSynth.getNextSample (D := Q) 2%nat 3%nat Examples.bench
    = Ok ((inject_Z 0 + inject_Z 10 - inject_Z 10)%dbl, h').
Proof.
  eexists.
  eapply (TrivialGenerator_follows_patch (D := Q) 1%nat 3%nat Examples.bench
            (Examples.module_of (ModularSynth.IsTrivialGenerator Examples.follower) [])
            (ModularSynth.value Examples.follower) (ModularSynth.step Examples.follower)
            0%nat (inject_Z 0));
    reflexivity.
Defined.

Lemma FIRFilter_sliding_window_witness :
  ModularSynth.getNextSample_times (D := Q) 2%nat 1%nat 2%nat Examples.store
  = Ok ([ModularSynth.dot_product [inject_Z 5; inject_Z 6; inject_Z 0]
           [inject_Z 1; inject_Z 2; inject_Z 3];
         ModularSynth.dot_product [inject_Z 6; inject_Z 0; inject_Z 1]
           [inject_Z 1; inject_Z 2; inject_Z 3]],
        ModularSynth.with_module 1%nat
          (Examples.module_of
             (ModularSynth.IsFIRFilter
                (ModularSynth.set_inputSamples [inject_Z 6; inject_Z 0; inject_Z 1]
                   Examples.three_taps)) [0%nat])
          (ModularSynth.with_module 0%nat
             (Examples.module_of
                (ModularSynth.IsTrivialGenerator
                   {| ModularSynth.value := ModularSynth.ModuleParameter_new (inject_Z 2);
                      ModularSynth.step := ModularSynth.ModuleParameter_new (inject_Z 1) |})
                [])
             Examples.store)) /\
  length (drop 2 ([inject_Z 4; inject_Z 5; inject_Z 6] ++ [inject_Z 0; inject_Z 1]))
  = length [inject_Z 4; inject_Z 5; inject_Z 6].
Proof.
  assert (Hfeeds :
            ModularSynth.feeds (D := Q) 1%nat 1%nat 0%nat Examples.store
              [inject_Z 0; inject_Z 1]
              (ModularSynth.with_module 0%nat
                 (Examples.module_of
                    (ModularSynth.IsTrivialGenerator
                       {| ModularSynth.value :=
                            ModularSynth.ModuleParameter_new (inject_Z 2);
                          ModularSynth.step :=
                            ModularSynth.ModuleParameter_new (inject_Z 1) |}) [])
                 Examples.store)).
  { pose proof (feeds_ramp (D := Q) 0%nat 1%nat 0%nat
                  (Examples.module_of (ModularSynth.IsTrivialGenerator Examples.ramp) [])
                  (ModularSynth.ModuleParameter_new (inject_Z 0))
                  (ModularSynth.ModuleParameter_new (inject_Z 1)) 2%nat
                  ltac:(discriminate) eq_refl eq_refl (inject_Z 0) Examples.store) as F.
    match type of F with
    | ModularSynth.feeds _ _ _ ?a _ _ =>
        replace a with Examples.store in F
          by (symmetry; apply with_module_same; reflexivity)
    end.
    exact F. }
  exact (FIRFilter_sliding_window (D := Q) 1%nat 1%nat Examples.store
           (Examples.module_of (ModularSynth.IsFIRFilter Examples.three_taps) [0%nat])
           Examples.three_taps 0%nat [] [inject_Z 0; inject_Z 1] _
           eq_refl eq_refl eq_refl ltac:(discriminate) eq_refl eq_refl Hfeeds).
Defined.

(** ** Modules with no input, and modules wired in a cycle *)

Section WiringFacts.
Context {D : Type} `{Arith D}.
Import ModularSynth.

Implicit Types (h : @heap D) (m : @Module D).

(** X9.  An [RCFilter] or a [GenericOutput] with no input: any number of calls
    of [getNextSample] return 0 each and leave the store as it is; the RC
    filter keeps its state and does not pull its breakpoint again. *)
Theorem getNextSample_no_input fuel self h m (k : nat) :
  modules h !! self = Some m ->
  derived m = IsGenericOutput \/ (exists rc, derived m = IsRCFilter rc) ->
  _inputs m = [] ->
  getNextSample_times (S fuel) self k h = Ok (repeat (d_of_Z 0) k, h).
Proof.
  intros E Hkind Ei.
  assert (Hone : getNextSample (S fuel) self h = Ok (d_of_Z 0, h)).
  { destruct Hkind as [Ed|[rc Ed]].
    - now apply (GenericOutput_getNextSample_no_input fuel self h m).
    - now apply (RCFilter_getNextSample_no_input fuel self h m rc). }
  induction k as [|k IH]; [reflexivity|].
  cbn [getNextSample_times repeat]. bind_with Hone. bind_with IH. reflexivity.
Qed.

(** X10.  A [GenericOutput] or an [RCFilter] whose first input is the module
    itself: [getNextSample] calls itself before anything else, and no depth of
    calls is enough for it to return. *)
Theorem getNextSample_self_loop self h m rest :
  modules h !! self = Some m ->
  derived m = IsGenericOutput \/ (exists rc, derived m = IsRCFilter rc) ->
  _inputs m = self :: rest ->
  forall fuel, getNextSample fuel self h = OutOfFuel.
Proof.
  intros E Hkind Ei fuel. induction fuel as [|fuel IH]; [reflexivity|].
  simpl getNextSample. bind_with (readModule_Ok _ _ _ E).
  destruct Hkind as [Ed|[rc Ed]]; rewrite Ed.
  - unfold GenericOutput_getNextSample.
    bind_with (readModule_Ok _ _ _ E). rewrite Ei. exact IH.
  - unfold RCFilter_getNextSample.
    bind_with (readModule_Ok _ _ _ E). rewrite Ei.
    unfold bind. now rewrite IH.
Qed.

End WiringFacts.

Lemma getNextSample_no_input_witness :
  ModularSynth.getNextSample_times (D := Q) 1%nat 6%nat 3%nat Examples.bench
  = Ok (repeat (d_of_Z 0) 3, Examples.bench).
Proof.
  eapply (getNextSample_no_input (D := Q) 0%nat 6%nat Examples.bench _ 3%nat).
  - reflexivity.
  - right. eexists. reflexivity.
  - reflexivity.
Defined.

Lemma getNextSample_self_loop_witness :
  (forall fuel, ModularSynth.getNextSample (D := Q) fuel 2%nat Examples.bench = OutOfFuel) /\
  (forall fuel, ModularSynth.getNextSample (D := Q) fuel 5%nat Examples.bench = OutOfFuel).
Proof.
  split.
  - eapply (getNextSample_self_loop (D := Q) 2%nat Examples.bench _ []).
    + reflexivity.
    + left. reflexivity.
    + reflexivity.
  - eapply (getNextSample_self_loop (D := Q) 5%nat Examples.bench _ []).
    + reflexivity.
    + right. eexists. reflexivity.
    + reflexivity.
Defined.

(** ** [FunctionModule] and [GenericOutput] of [CX_Synth.h] *)

Section SynthFacts.
Context {D : Type} `{Arith D} {X : Type}.
Import Synth.
Variable declared : (ptr -> M (gmap ptr (@Module D X)) D) -> ptr -> M (gmap ptr (@Module D X)) D.

Implicit Types (h : gmap ptr (@Module D X)) (m : @Module D X).

(** X11.  A [FunctionModule] whose [f] holds a function returns that function
    of the sample of its input, taken once; with no input it returns [f(0)]
    and leaves the store as it is, as it would with an input that returns 0.
    A [FunctionModule] whose [f] is empty, as it is after construction, takes
    the sample of its input all the same and then throws
    [std::bad_function_call].  The input does not write the module. *)
Theorem FunctionModule_getNextSample_applies fuel self h m fo :
  h !! self = Some m -> derived m = IsFunctionModule fo ->
  (_inputs m = [] ->
   getNextSample declared (S fuel) self h
   = match fo with
     | Some fn => Ok (fn (d_of_Z 0), h)
     | None => Fault BadFunctionCall
     end) /\
  (forall inp rest x h1,
     _inputs m = inp :: rest ->
     getNextSample declared fuel inp h = Ok (x, h1) ->
     h1 !! self = Some m ->
     getNextSample declared (S fuel) self h
     = match fo with
       | Some fn => Ok (fn x, h1)
       | None => Fault BadFunctionCall
       end) /\
  (forall inp rest e,
     _inputs m = inp :: rest ->
     getNextSample declared fuel inp h = Fault e ->
     getNextSample declared (S fuel) self h = Fault e).
Proof.
  intros E Ed.
  assert (Hdispatch :
            getNextSample declared (S fuel) self h
            = FunctionModule_getNextSample (getNextSample declared fuel) self h).
  { cbn [getNextSample].
    bind_with (Synth_readModule_Ok _ _ _ E). now rewrite Ed. }
  rewrite Hdispatch. unfold FunctionModule_getNextSample.
  bind_with (Synth_readModule_Ok _ _ _ E).
  split; [|split].
  - intros ->. unfold ret at 1. unfold bind at 1.
    bind_with (Synth_readModule_Ok _ _ _ E). rewrite Ed. now destruct fo.
  - intros inp rest x h1 Ei Hpull E1. rewrite Ei.
    bind_with Hpull.
    bind_with (Synth_readModule_Ok _ _ _ E1). rewrite Ed. now destruct fo.
  - intros inp rest e Ei Hpull. rewrite Ei.
    unfold bind. now rewrite Hpull.
Qed.

(** X12.  A [GenericOutput] with an input connected and [oversampling == 0]
    calls nothing: it returns the quotient [0 / 0] of the empty sum by the
    count and leaves the store as it is. *)
Theorem GenericOutput_getNextSample_no_oversampling fuel self h m inp rest :
  h !! self = Some m -> derived m = IsGenericOutput ->
  _inputs m = inp :: rest ->
  oversampling (_data m) = 0 ->
  getNextSample declared (S fuel) self h = Ok ((d_of_Z 0 / d_of_Z 0)%dbl, h).
Proof.
  intros E Ed Ei Hk.
  cbn [getNextSample]. bind_with (Synth_readModule_Ok _ _ _ E). rewrite Ed.
  unfold GenericOutput_getNextSample.
  bind_with (Synth_readModule_Ok _ _ _ E). rewrite Ei.
  destruct (Z.to_nat (2 ^ 32)) as [|budget] eqn:Hb; [lia|].
  assert (Hsum : GenericOutput_sum (getNextSample declared fuel) self (S budget) 0
                   (d_of_Z 0) h = Ok (d_of_Z 0, h)).
  { cbn [GenericOutput_sum].
    bind_with (Synth_readModule_Ok _ _ _ E). now rewrite Hk. }
  bind_with Hsum.
  bind_with (Synth_readModule_Ok _ _ _ E). now rewrite Hk.
Qed.

End SynthFacts.

Lemma FunctionModule_getNextSample_applies_witness :
  (exists h1,
     Synth.getNextSample SynthExamples.counter 2%nat 1%nat SynthExamples.bench
     = Ok (dadd (inject_Z 1) (inject_Z 1), h1)) /\
  Synth.getNextSample SynthExamples.counter 2%nat 2%nat SynthExamples.bench
  = Ok (dadd (d_of_Z 0) (d_of_Z 0), SynthExamples.bench) /\
  Synth.getNextSample SynthExamples.counter 2%nat 4%nat SynthExamples.bench
  = Fault BadFunctionCall /\
  Synth.getNextSample SynthExamples.counter 2%nat 5%nat SynthExamples.bench
  = Fault BadFunctionCall.
Proof.
  split; [|split; [|split]].
  - eexists.
    eapply (proj1 (proj2 (FunctionModule_getNextSample_applies SynthExamples.counter
                            1%nat 1%nat SynthExamples.bench _
                            (Some (fun x => dadd x x)) eq_refl eq_refl))
              0%nat [] (inject_Z 1));
      reflexivity.
  - eapply (proj1 (FunctionModule_getNextSample_applies SynthExamples.counter
                     1%nat 2%nat SynthExamples.bench _
                     (Some (fun x => dadd x x)) eq_refl eq_refl)).
    reflexivity.
  - eapply (proj1 (proj2 (FunctionModule_getNextSample_applies SynthExamples.counter
                            1%nat 4%nat SynthExamples.bench _ None
                            eq_refl eq_refl))
              0%nat [] (inject_Z 1) _);
      reflexivity.
  - eapply (proj1 (FunctionModule_getNextSample_applies SynthExamples.counter
                     1%nat 5%nat SynthExamples.bench _ None eq_refl eq_refl)).
    reflexivity.
Defined.

Lemma GenericOutput_getNextSample_no_oversampling_witness :
  Synth.getNextSample SynthExamples.counter 2%nat 3%nat SynthExamples.bench
  = Ok ((d_of_Z 0 / d_of_Z 0)%dbl, SynthExamples.bench).
Proof.
  eapply (GenericOutput_getNextSample_no_oversampling SynthExamples.counter
            1%nat 3%nat SynthExamples.bench _ 0%nat []);
    reflexivity.
Defined.

(** ** What a pull never writes *)

Section FrameFacts.
Context {D : Type} `{Arith D}.
Import ModularSynth.

Implicit Types (h : @heap D) (m : @Module D) (p q : @ModuleParameter D).

Lemma bind_inv {S A B} (c : M S A) (k : A -> M S B) s r :
  bind c k s = Ok r -> exists a s1, c s = Ok (a, s1) /\ k a s1 = Ok r.
Proof.
  unfold bind. destruct (c s) as [[a s1]|e|]; try discriminate. eauto.
Qed.

Lemma readModule_inv a h m h1 :
  readModule a h = Ok (m, h1) -> h1 = h /\ modules h !! a = Some m.
Proof.
  unfold readModule. destruct (modules h !! a); [|discriminate].
  intros E. now inversion E.
Qed.

Lemma readP_inv r h p h1 :
  readP r h = Ok (p, h1) -> h1 = h /\ lookupP r h = Some p.
Proof.
  unfold readP. destruct (lookupP r h); [|discriminate].
  intros E. now inversion E.
Qed.

Lemma getValue_inv r h v h1 :
  ModuleParameter_getValue r h = Ok (v, h1) -> h1 = h.
Proof.
  unfold ModuleParameter_getValue. intros E.
  apply bind_inv in E. destruct E as (p & h2 & Hr & Hk).
  apply readP_inv in Hr. destruct Hr as [-> _]. now inversion Hk.
Qed.

Lemma readFIR_inv a h f h1 :
  readFIR a h = Ok (f, h1) ->
  h1 = h /\ exists m, modules h !! a = Some m /\ derived m = IsFIRFilter f.
Proof.
  unfold readFIR. intros E. apply bind_inv in E. destruct E as (m & h2 & Hr & Hk).
  apply readModule_inv in Hr. destruct Hr as [-> Em].
  destruct (derived m) eqn:Ed; try discriminate.
  inversion Hk; subst. eauto.
Qed.

Lemma readRC_inv a h rc h1 :
  readRC a h = Ok (rc, h1) ->
  h1 = h /\ exists m, modules h !! a = Some m /\ derived m = IsRCFilter rc.
Proof.
  unfold readRC. intros E. apply bind_inv in E. destruct E as (m & h2 & Hr & Hk).
  apply readModule_inv in Hr. destruct Hr as [-> Em].
  destruct (derived m) eqn:Ed; try discriminate.
  inversion Hk; subst. eauto.
Qed.

Lemma writeFIR_inv a f h u h1 :
  writeFIR a f h = Ok (u, h1) ->
  exists m, modules h !! a = Some m /\
            h1 = with_module a (set_derived (IsFIRFilter f) m) h.
Proof.
  unfold writeFIR. intros E. apply bind_inv in E. destruct E as (m & h2 & Hr & Hk).
  apply readModule_inv in Hr. destruct Hr as [-> Em].
  inversion Hk. eauto.
Qed.

Lemma writeRC_inv a rc h u h1 :
  writeRC a rc h = Ok (u, h1) ->
  exists m, modules h !! a = Some m /\
            h1 = with_module a (set_derived (IsRCFilter rc) m) h.
Proof.
  unfold writeRC. intros E. apply bind_inv in E. destruct E as (m & h2 & Hr & Hk).
  apply readModule_inv in Hr. destruct Hr as [-> Em].
  inversion Hk. eauto.
Qed.

Lemma same_wiring_refl h : same_wiring h h.
Proof. split; auto. Qed.

Lemma same_wiring_trans h1 h2 h3 :
  same_wiring h1 h2 -> same_wiring h2 h3 -> same_wiring h1 h3.
Proof.
  intros [P1 W1] [P2 W2]. split; [congruence|].
  intros a. now rewrite W2, W1.
Qed.

Lemma same_wiring_write a m m' h :
  modules h !! a = Some m -> without_signal m' = without_signal m ->
  same_wiring h (with_module a m' h).
Proof.
  intros E Hw. split; [reflexivity|]. intros b.
  destruct (decide (b = a)) as [->|Hne].
  - rewrite with_module_lookup, E. simpl. now rewrite Hw.
  - now rewrite with_module_lookup_ne.
Qed.

(** Storing a new number in the [value] of a generator or in the breakpoint
    of an RC filter does not change the wiring. *)
Lemma same_wiring_store_member a fld p x h h' :
  fld <> F_step ->
  lookupP (Member a fld) h = Some p ->
  storeP (Member a fld) (set_p_data x p) h = Some h' ->
  same_wiring h h'.
Proof.
  simpl. intros Hfld.
  destruct (modules h !! a) as [m|] eqn:Em; [|discriminate].
  intros Eg. destruct (member_set fld (set_p_data x p) m) as [m'|] eqn:Es; [|discriminate].
  intros E. inversion E.
  apply (same_wiring_write a m m' h Em).
  unfold member_get, member_set, without_signal in *.
  destruct fld, (derived m) as [|g| |f|rc] eqn:Ed;
    inversion Eg; inversion Es; subst; simpl; try congruence; reflexivity.
Qed.

Lemma updateValue_keeps_wiring pull a fld h u h' :
  fld <> F_step ->
  (forall src h0 x h1, pull src h0 = Ok (x, h1) -> same_wiring h0 h1) ->
  ModuleParameter_updateValue pull (Member a fld) h = Ok (u, h') ->
  same_wiring h h'.
Proof.
  intros Hfld Hpull E. unfold ModuleParameter_updateValue in E.
  apply bind_inv in E. destruct E as (p & h0 & Hr & E).
  apply readP_inv in Hr. destruct Hr as [-> Lp].
  destruct (p_input p) as [src|].
  - apply bind_inv in E. destruct E as (x & h1 & Hx & E).
    apply bind_inv in E. destruct E as (p' & h2 & Hr & E).
    apply readP_inv in Hr. destruct Hr as [-> Lp'].
    unfold writeP in E.
    destruct (storeP (Member a fld) (set_p_data x p') h1) as [h2|] eqn:Es;
      [|discriminate].
    inversion E; subst.
    eapply same_wiring_trans; [eapply Hpull, Hx|].
    eapply same_wiring_store_member; eassumption.
  - inversion E. apply same_wiring_refl.
Qed.

(** X13.  A call of [getNextSample] that returns has written nothing but
    numbers: every free-standing parameter is as it was, and every module is
    as it was up to the value of a generator, the history of a FIR filter and
    the state and breakpoint value of an RC filter.  The connection lists,
    the control blocks, the patches, the steps and the coefficients are never
    written by a pull, whatever the graph. *)
Theorem getNextSample_keeps_wiring fuel self h x h' :
  getNextSample fuel self h = Ok (x, h') ->
  parameters h' = parameters h /\
  (forall a, without_signal <$> modules h' !! a = without_signal <$> modules h !! a).
Proof.
  change (getNextSample fuel self h = Ok (x, h') -> same_wiring h h').
  revert self h x h'.
  induction fuel as [|fuel IH]; intros self h x h' E; [discriminate E|].
  simpl in E. apply bind_inv in E. destruct E as (m & h0 & Hr & E).
  apply readModule_inv in Hr. destruct Hr as [-> Em].
  destruct (derived m) as [|g| |f|rc] eqn:Ed.
  - inversion E. apply same_wiring_refl.
  - unfold TrivialGenerator_getNextSample in E.
    apply bind_inv in E. destruct E as (u & h1 & Hup & E).
    apply (updateValue_keeps_wiring _ self F_value _ _ _ ltac:(discriminate) IH) in Hup.
    apply bind_inv in E. destruct E as (v & h2 & Hv & E).
    apply getValue_inv in Hv. subst h2.
    apply bind_inv in E. destruct E as (s & h2 & Hs & E).
    apply getValue_inv in Hs. subst h2.
    apply bind_inv in E. destruct E as (p & h2 & Hp & E).
    apply readP_inv in Hp. destruct Hp as [-> Lp].
    apply bind_inv in E. destruct E as (u2 & h2 & Hw & E).
    unfold writeP in Hw.
    destruct (storeP (Member self F_value) (set_p_data (v + s)%dbl p) h1) as [h3|] eqn:Es;
      [|discriminate].
    inversion Hw; subst h3.
    apply bind_inv in E. destruct E as (v' & h3 & Hv' & E).
    apply getValue_inv in Hv'. subst h3.
    apply bind_inv in E. destruct E as (s' & h3 & Hs' & E).
    apply getValue_inv in Hs'. subst h3.
    inversion E; subst.
    eapply same_wiring_trans; [exact Hup|].
    eapply same_wiring_store_member; [|exact Lp|exact Es]. discriminate.
  - unfold GenericOutput_getNextSample in E.
    apply bind_inv in E. destruct E as (m1 & h1 & Hr & E).
    apply readModule_inv in Hr. destruct Hr as [-> _].
    destruct (_inputs m1) as [|inp rest].
    + inversion E. apply same_wiring_refl.
    + eapply IH, E.
  - unfold FIRFilter_getNextSample in E.
    apply bind_inv in E. destruct E as (f1 & h1 & Hr & E).
    apply readFIR_inv in Hr. destruct Hr as [-> (m1 & Em1 & Ed1)].
    apply bind_inv in E. destruct E as (u & h1 & Hpop & E).
    destruct (_inputSamples f1) as [|oldest hist]; [discriminate|].
    apply writeFIR_inv in Hpop. destruct Hpop as (m2 & Em2 & ->).
    assert (W1 : same_wiring h
                   (with_module self
                      (set_derived (IsFIRFilter (set_inputSamples hist f1)) m2) h)).
    { apply (same_wiring_write self m2 _ h Em2).
      rewrite Em1 in Em2. inversion Em2; subst m2.
      unfold without_signal. simpl. now rewrite Ed1. }
    apply bind_inv in E. destruct E as (m3 & h1 & Hr & E).
    apply readModule_inv in Hr. destruct Hr as [-> _].
    destruct (_inputs m3) as [|inp rest]; [discriminate|].
    apply bind_inv in E. destruct E as (x1 & h1 & Hx & E).
    apply IH in Hx.
    apply bind_inv in E. destruct E as (f2 & h2 & Hr & E).
    apply readFIR_inv in Hr. destruct Hr as [-> (m4 & Em4 & Ed4)].
    apply bind_inv in E. destruct E as (u2 & h2 & Hpush & E).
    apply writeFIR_inv in Hpush. destruct Hpush as (m5 & Em5 & ->).
    assert (W2 : same_wiring h1
                   (with_module self
                      (set_derived
                         (IsFIRFilter (set_inputSamples (_inputSamples f2 ++ [x1]) f2))
                         m5) h1)).
    { apply (same_wiring_write self m5 _ h1 Em5).
      rewrite Em4 in Em5. inversion Em5; subst m5.
      unfold without_signal. simpl. now rewrite Ed4. }
    apply bind_inv in E. destruct E as (f3 & h3 & Hr & E).
    apply readFIR_inv in Hr. destruct Hr as [-> _].
    destruct (FIRFilter_convolve _ _ _ _ _); try discriminate.
    inversion E; subst.
    eapply same_wiring_trans; [exact W1|].
    eapply same_wiring_trans; [exact Hx|exact W2].
  - unfold RCFilter_getNextSample in E.
    apply bind_inv in E. destruct E as (m1 & h1 & Hr & E).
    apply readModule_inv in Hr. destruct Hr as [-> _].
    destruct (_inputs m1) as [|inp rest].
    + inversion E. apply same_wiring_refl.
    + apply bind_inv in E. destruct E as (v1 & h1 & Hx & E).
      apply IH in Hx.
      unfold RCFilter_update in E.
      apply bind_inv in E. destruct E as (u & h2 & Hup & E).
      apply (updateValue_keeps_wiring _ self F_breakpoint _ _ _ ltac:(discriminate) IH)
        in Hup.
      apply bind_inv in E. destruct E as (rc1 & h3 & Hr & E).
      apply readRC_inv in Hr. destruct Hr as [-> (m2 & Em2 & Ed2)].
      apply bind_inv in E. destruct E as (b & h3 & Hb & E).
      apply getValue_inv in Hb. subst h3.
      apply bind_inv in E. destruct E as (m3 & h3 & Hr & E).
      apply readModule_inv in Hr. destruct Hr as [-> Em3].
      apply bind_inv in E. destruct E as (u2 & h3 & Hw & E).
      apply writeRC_inv in Hw. destruct Hw as (m4 & Em4 & ->).
      apply bind_inv in E. destruct E as (rc2 & h3 & Hr & E).
      apply readRC_inv in Hr. destruct Hr as [-> _].
      inversion E; subst.
      eapply same_wiring_trans; [exact Hx|].
      eapply same_wiring_trans; [exact Hup|].
      apply (same_wiring_write self m4 _ h2 Em4).
      rewrite Em2 in Em4. inversion Em4; subst m4.
      unfold without_signal. simpl. now rewrite Ed2.
Qed.

End FrameFacts.

Lemma getNextSample_keeps_wiring_witness :
  exists x h',
    ModularSynth.getNextSample (D := Q) 2%nat 3%nat Examples.store = Ok (x, h') /\
    ModularSynth.parameters h' = ModularSynth.parameters Examples.store /\
    (forall a, ModularSynth.without_signal <$> ModularSynth.modules h' !! a
               = ModularSynth.without_signal <$> ModularSynth.modules Examples.store !! a).
Proof.
  do 2 eexists. split; [reflexivity|].
  eapply (getNextSample_keeps_wiring (D := Q) 2%nat 3%nat Examples.store).
  reflexivity.
Defined.

(** ** Counts that an [int] cannot hold, and patching before a pull *)

Section MoreFacts.
Context {D : Type} `{Arith D}.
Import ModularSynth.

Implicit Types (h : @heap D) (m : @Module D) (f : @FIRFilter D) (p : @ModuleParameter D).

Lemma to_int_large z : INT_MAX < z < 2 ^ 32 -> to_int z = z - 2 ^ 32.
Proof.
  unfold to_int, INT_MAX. intros Hz.
  replace (z + 2 ^ 31) with ((z - 2 ^ 31) + 1 * 2 ^ 32) by lia.
  rewrite Z.mod_add by lia. rewrite Z.mod_small by lia. lia.
Qed.

(** X14.  [setup(filterType, coefficientCount)] with a count above [INT_MAX]:
    the count, rounded up to odd, is negative once stored in the [int]
    [_coefCount], and the history cannot be assigned. *)
Theorem FIRFilter_setup_above_INT_MAX filterType coefficientCount self h m f :
  is_uint coefficientCount -> INT_MAX < coefficientCount ->
  modules h !! self = Some m -> derived m = IsFIRFilter f ->
  FIRFilter_setup filterType coefficientCount self h = Fault LengthError.
Proof.
  intros Hu Hbig E Ed. unfold FIRFilter_setup.
  assert (Hconv : to_int (if coefficientCount mod 2 =? 0
                          then to_uint (coefficientCount + 1) else coefficientCount) < 0).
  { unfold is_uint, INT_MAX in *.
    pose proof (Z.div_mod coefficientCount 2 ltac:(lia)) as Hdiv.
    pose proof (Z.mod_pos_bound coefficientCount 2 ltac:(lia)) as Hbound.
    destruct (coefficientCount mod 2 =? 0) eqn:Hpar.
    - apply Z.eqb_eq in Hpar.
      rewrite to_uint_small by (unfold is_uint; lia).
      rewrite to_int_large by (unfold INT_MAX; lia). lia.
    - rewrite to_int_large by (unfold INT_MAX; lia). lia. }
  bind_with (readFIR_Ok _ _ _ _ E Ed).
  bind_with (writeFIR_Ok _ _ _ _ E).
  erewrite bind_Ok by (eapply readFIR_Ok; [apply modules_insert_eq|reflexivity]).
  apply bind_Fault. unfold deque_assign. cbn [_coefCount set_coefCount].
  apply Z.ltb_lt in Hconv. now rewrite Hconv.
Qed.

(** X15.  After [l >> r] the parameter [r] still holds the value it held; the
    next [updateValue()] calls [l] once and stores its sample in [r].  The
    call of [l] does not write [r]. *)
Theorem connect_then_updateValue fuel l r h p :
  lookupP r h = Some p ->
  exists h1,
    connect_parameter l r h = Ok (tt, h1) /\
    ModuleParameter_getValue r h1 = Ok (p_data p, h1) /\
    (forall x h2,
       getNextSample fuel l h1 = Ok (x, h2) ->
       lookupP r h2 = lookupP r h1 ->
       exists h3,
         updateValue fuel r h1 = Ok (tt, h3) /\
         ModuleParameter_getValue r h3 = Ok (x, h3)).
Proof.
  intros E.
  destruct (storeP_Some r p (set_p_input (Some l) p) h E) as [h1 Es].
  pose proof (lookupP_storeP_eq _ _ _ _ Es) as L1.
  exists h1. split; [|split].
  - unfold connect_parameter. bind_with (readP_Ok _ _ _ E). now apply writeP_Ok.
  - now rewrite (getValue_Ok _ _ _ L1).
  - intros x h2 Hpull Hsame. rewrite L1 in Hsame.
    destruct (storeP_Some r _ (set_p_data x (set_p_input (Some l) p)) h2 Hsame)
      as [h3 Es3].
    exists h3. split.
    + unfold updateValue.
      eapply updateValue_patched; [exact L1|reflexivity|exact Hpull|exact Hsame|exact Es3].
    + now rewrite (getValue_Ok _ _ _ (lookupP_storeP_eq _ _ _ _ Es3)).
Qed.

End MoreFacts.

Lemma FIRFilter_setup_above_INT_MAX_witness :
  ModularSynth.FIRFilter_setup (D := Q) ModularSynth.LOW_PASS 2147483648 4%nat
    Examples.store = Fault LengthError.
Proof.
  exact (FIRFilter_setup_above_INT_MAX (D := Q) ModularSynth.LOW_PASS 2147483648 4%nat
           Examples.store
           (Examples.module_of (ModularSynth.IsFIRFilter ModularSynth.FIRFilter_new) [])
           ModularSynth.FIRFilter_new
           ltac:(unfold is_uint; lia) ltac:(unfold INT_MAX; lia) eq_refl eq_refl).
Defined.

Lemma connect_then_updateValue_witness :
  exists h1 h3,
    ModularSynth.connect_parameter (D := Q) 0%nat (ModularSynth.Standalone 1%nat)
      Examples.store = Ok (tt, h1) /\
    ModularSynth.ModuleParameter_getValue (ModularSynth.Standalone 1%nat) h1
    = Ok (inject_Z 7, h1) /\
    ModularSynth.updateValue 1%nat (ModularSynth.Standalone 1%nat) h1 = Ok (tt, h3) /\
    ModularSynth.ModuleParameter_getValue (ModularSynth.Standalone 1%nat) h3
    = Ok (inject_Z 0, h3).
Proof.
  destruct (connect_then_updateValue (D := Q) 1%nat 0%nat (ModularSynth.Standalone 1%nat)
              Examples.store (ModularSynth.ModuleParameter_new (inject_Z 7)) eq_refl)
    as (h1 & Hc & Hv & Hnext).
  assert (Hc' : Ok (tt, h1)
                = ModularSynth.connect_parameter (D := Q) 0%nat
                    (ModularSynth.Standalone 1%nat) Examples.store)
    by (symmetry; exact Hc).
  vm_compute in Hc'. inversion Hc' as [Hh1].
  destruct (Hnext (inject_Z 0)
              (ModularSynth.with_module 0%nat
                 (Examples.module_of
                    (ModularSynth.IsTrivialGenerator
                       {| ModularSynth.value := ModularSynth.ModuleParameter_new (inject_Z 1);
                          ModularSynth.step := ModularSynth.ModuleParameter_new (inject_Z 1) |})
                    []) h1))
    as (h3 & Hu & Hg).
  - rewrite Hh1. vm_compute. reflexivity.
  - rewrite Hh1. vm_compute. reflexivity.
  - exists h1, h3. auto.
Defined.
